(** * Piltong recorder: the audio-capture-and-streaming pipeline of [App]

    A shallow embedding of the pipeline code of the [App] component: the
    PCM frame encoder ([encode], lines 9-16, and the [onaudioprocess]
    handler, lines 179-192) and the recording lifecycle ([stopRecording],
    lines 68-93, [startConversion], lines 110-233, and the callbacks they
    install) and the address form ([extractYoutubeId], lines 19-23, and
    [handleYoutubeLoad], lines 101-108), followed by the properties
    established about them.

    Handlers are state transformers that log their steps.  A handler reads
    React state through the render that created it and refs through the
    shared store, so a stale closure is a handler applied to an old
    render. *)

From Stdlib Require Import ZArith QArith Qround Qpower List String Ascii Bool Lia.
From Stdlib Require Import Floats.SpecFloat.
From stdpp Require Import base list.
Import ListNotations.

Local Open Scope Z_scope.

(** ** PCM frame encoder *)

Module Pcm.

(** A sample of the [Float32Array] handed to [onaudioprocess]: zero,
    infinity, NaN, or [(-1)^s * m * 2^e]. *)
Definition sample : Type := spec_float.

(** [inputData[i] * 32768]: the product is computed in binary64, where
    scaling a binary32 value by [2^15] is exact. *)
Definition scale (x : sample) : sample :=
  match x with
  | S754_finite s m e => S754_finite s m (e + 15)
  | _ => x
  end.

(** Integer part of a number, rounding toward zero ([0] for NaN and the
    infinities, which [ToInt16] maps to [+0] before truncating). *)
Definition truncate (x : sample) : Z :=
  match x with
  | S754_finite s m e =>
      let a := Z.shiftl (Z.pos m) e in if s then - a else a
  | _ => 0
  end.

(** ECMAScript [ToInt16], the conversion applied by a store into an
    [Int16Array]. *)
Definition ToInt16 (x : sample) : Z :=
  let int16bit := truncate x mod 65536 in
  if 32768 <=? int16bit then int16bit - 65536 else int16bit.

(** The loop [for (i = 0; i < l; i++) int16[i] = inputData[i] * 32768]. *)
Definition to_int16_array (inputData : list sample) : list Z :=
  map (fun x => ToInt16 (scale x)) inputData.

(** [new Uint8Array(int16.buffer)]: the two bytes of each element in
    the byte order of the platform, low byte first. *)
Definition int16_bytes (v : Z) : list Z :=
  [Z.land v 255; Z.land (Z.shiftr v 8) 255].

Definition uint8_view (int16 : list Z) : list Z :=
  flat_map int16_bytes int16.

Definition fromCharCode (b : Z) : string :=
  String (ascii_of_N (Z.to_N b)) EmptyString.

Definition alphabet : string :=
  "ABCDEFGHIJKLMNOPQRSTUVWXYZabcdefghijklmnopqrstuvwxyz0123456789+/".

Definition digit (n : Z) : string :=
  match String.get (Z.to_nat n) alphabet with
  | Some c => String c EmptyString
  | None => EmptyString
  end.

(** [btoa] on the character codes of a binary string (RFC 4648 with
    padding). *)
Fixpoint btoa_codes (l : list Z) : string :=
  match l with
  | [] => EmptyString
  | [a] =>
      String.append (digit (Z.shiftr a 2))
        (String.append (digit (Z.shiftl (Z.land a 3) 4)) "==")
  | [a; b] =>
      String.append (digit (Z.shiftr a 2))
        (String.append (digit (Z.lor (Z.shiftl (Z.land a 3) 4) (Z.shiftr b 4)))
           (String.append (digit (Z.shiftl (Z.land b 15) 2)) "="))
  | a :: b :: c :: rest =>
      String.append (digit (Z.shiftr a 2))
        (String.append (digit (Z.lor (Z.shiftl (Z.land a 3) 4) (Z.shiftr b 4)))
           (String.append (digit (Z.lor (Z.shiftl (Z.land b 15) 2) (Z.shiftr c 6)))
              (String.append (digit (Z.land c 63)) (btoa_codes rest))))
  end.

Definition btoa (binary : string) : string :=
  btoa_codes (map (fun c => Z.of_N (N_of_ascii c)) (list_ascii_of_string binary)).

(** [encode]: build the binary string one character per byte, then [btoa]. *)
Definition encode (bytes : list Z) : string :=
  let binary :=
    fold_left (fun binary b => String.append binary (fromCharCode b)) bytes EmptyString in
  btoa binary.

(** The synchronous part of the [onaudioprocess] handler: the Base64 text
    of one input block. *)
Definition encode_frame (inputData : list sample) : string :=
  encode (uint8_view (to_int16_array inputData)).

(** *** Reference notions used to state the encoder's properties *)

(** The real value of a finite sample. *)
Definition value (x : sample) : option Q :=
  match x with
  | S754_zero _ => Some 0%Q
  | S754_finite s m e =>
      let a := (inject_Z (Z.pos m) * Qpower 2 e)%Q in
      Some (if s then Qopp a else a)
  | _ => None
  end.

(** Rounding toward zero on the rationals. *)
Definition Qtrunc (q : Q) : Z :=
  if Qle_bool 0 q then Qfloor q else Qceiling q.

(** "Multiply by 32768 and truncate". *)
Definition scaled (q : Q) : Z := Qtrunc (q * 32768).

(** Reduction of an integer into the signed 16-bit range. *)
Definition wrap16 (n : Z) : Z := (n + 32768) mod 65536 - 32768.

(** Clamping into the signed 16-bit range, the alternative the encoder
    does not implement. *)
Definition saturate16 (n : Z) : Z := Z.max (-32768) (Z.min 32767 n).

Definition is_zero (x : sample) : bool :=
  match x with S754_zero _ => true | _ => false end.

End Pcm.

(** ** Recording lifecycle *)

Module Recorder.

Inductive SourceMode := mic | youtube | video | audio.

(** *** Program state: React state and refs of [App] *)

(** The values a render's closures capture.  [stopRecording] is memoised
    on [isRecording], and [startConversion] is rebuilt on every render, so
    a handler sees the state as it was when its render ran. *)
Record Render := mkRender {
  r_isRecording : bool;
  r_recordingTime : Z;
  r_sourceMode : SourceMode;
  r_youtubeId : option string;
  r_selectedFile : option string
}.

Record ReactState := mkReact {
  isRecording : bool;
  recordingTime : Z;
  stream : option nat;
  transcribedText : string;
  sourceMode : SourceMode;
  youtubeId : option string;
  selectedFile : option string
}.

(** The [.current] of each ref; a handle is the index of the platform
    object in the [World]. *)
Record Refs := mkRefs {
  mediaRecorderRef : option nat;
  timerRef : option nat;
  audioCtxRef : option nat;
  wakeLockRef : option nat;
  sessionPromiseRef : option nat;
  fileAudioSourceRef : option nat
}.

(** *** Platform objects *)

Record AudioContext := mkCtx {
  ctx_closed : bool;
  (** a source node is connected through the script processor to the
      destination, so [onaudioprocess] fires while the context is open *)
  ctx_tapped : bool
}.

(** A capture stream.  Its tracks are live when it is delivered; the
    component has no call that stops a track. *)
Record MediaStream := mkStream {
  tracks_live : bool;
  has_audio_track : bool
}.

Inductive RecorderState := inactive | recording.

Record BufferSource := mkNode {
  node_started : bool;
  node_stopped : bool;
  (** the render whose [stopRecording] the [onended] handler calls *)
  node_closure : Render
}.

(** A connection to the transcription service.  The component has no
    call that closes one. *)
Record Session := mkSession {
  (** the render whose [stopRecording] the [onclose] callback calls *)
  sess_closure : Render;
  (** whether the promise returned by [ai.live.connect] fulfils *)
  sess_fulfils : bool;
  (** the service has closed the connection *)
  sess_closed : bool
}.

Record World := mkWorld {
  contexts : list AudioContext;
  streams : list MediaStream;
  recorders : list RecorderState;
  nodes : list BufferSource;
  sessions : list Session;
  wakeLocks : list bool;   (* held *)
  timers : list bool       (* active *)
}.

Record St := mkSt { react : ReactState; refs : Refs; world : World }.

Definition render (st : St) : Render :=
  let s := react st in
  mkRender (isRecording s) (recordingTime s) (sourceMode s) (youtubeId s) (selectedFile s).

(** *** Field updates *)

Definition with_isRecording v (s : ReactState) :=
  mkReact v (recordingTime s) (stream s) (transcribedText s) (sourceMode s) (youtubeId s) (selectedFile s).
Definition with_recordingTime v (s : ReactState) :=
  mkReact (isRecording s) v (stream s) (transcribedText s) (sourceMode s) (youtubeId s) (selectedFile s).
Definition with_stream v (s : ReactState) :=
  mkReact (isRecording s) (recordingTime s) v (transcribedText s) (sourceMode s) (youtubeId s) (selectedFile s).
Definition with_transcribedText v (s : ReactState) :=
  mkReact (isRecording s) (recordingTime s) (stream s) v (sourceMode s) (youtubeId s) (selectedFile s).
Definition with_sourceMode v (s : ReactState) :=
  mkReact (isRecording s) (recordingTime s) (stream s) (transcribedText s) v (youtubeId s) (selectedFile s).
Definition with_youtubeId v (s : ReactState) :=
  mkReact (isRecording s) (recordingTime s) (stream s) (transcribedText s) (sourceMode s) v (selectedFile s).
Definition with_selectedFile v (s : ReactState) :=
  mkReact (isRecording s) (recordingTime s) (stream s) (transcribedText s) (sourceMode s) (youtubeId s) v.

Definition with_mediaRecorderRef v (r : Refs) :=
  mkRefs v (timerRef r) (audioCtxRef r) (wakeLockRef r) (sessionPromiseRef r) (fileAudioSourceRef r).
Definition with_timerRef v (r : Refs) :=
  mkRefs (mediaRecorderRef r) v (audioCtxRef r) (wakeLockRef r) (sessionPromiseRef r) (fileAudioSourceRef r).
Definition with_audioCtxRef v (r : Refs) :=
  mkRefs (mediaRecorderRef r) (timerRef r) v (wakeLockRef r) (sessionPromiseRef r) (fileAudioSourceRef r).
Definition with_wakeLockRef v (r : Refs) :=
  mkRefs (mediaRecorderRef r) (timerRef r) (audioCtxRef r) v (sessionPromiseRef r) (fileAudioSourceRef r).
Definition with_sessionPromiseRef v (r : Refs) :=
  mkRefs (mediaRecorderRef r) (timerRef r) (audioCtxRef r) (wakeLockRef r) v (fileAudioSourceRef r).
Definition with_fileAudioSourceRef v (r : Refs) :=
  mkRefs (mediaRecorderRef r) (timerRef r) (audioCtxRef r) (wakeLockRef r) (sessionPromiseRef r) v.

Definition with_contexts v (w : World) :=
  mkWorld v (streams w) (recorders w) (nodes w) (sessions w) (wakeLocks w) (timers w).
Definition with_streams v (w : World) :=
  mkWorld (contexts w) v (recorders w) (nodes w) (sessions w) (wakeLocks w) (timers w).
Definition with_recorders v (w : World) :=
  mkWorld (contexts w) (streams w) v (nodes w) (sessions w) (wakeLocks w) (timers w).
Definition with_nodes v (w : World) :=
  mkWorld (contexts w) (streams w) (recorders w) v (sessions w) (wakeLocks w) (timers w).
Definition with_sessions v (w : World) :=
  mkWorld (contexts w) (streams w) (recorders w) (nodes w) v (wakeLocks w) (timers w).
Definition with_wakeLocks v (w : World) :=
  mkWorld (contexts w) (streams w) (recorders w) (nodes w) (sessions w) v (timers w).
Definition with_timers v (w : World) :=
  mkWorld (contexts w) (streams w) (recorders w) (nodes w) (sessions w) (wakeLocks w) v.

Definition on_react (f : ReactState -> ReactState) (st : St) := mkSt (f (react st)) (refs st) (world st).
Definition on_refs (f : Refs -> Refs) (st : St) := mkSt (react st) (f (refs st)) (world st).
Definition on_world (f : World -> World) (st : St) := mkSt (react st) (refs st) (f (world st)).

(** *** Observable steps *)

Inductive AlertMsg :=
  | msg_load_video_first      (* shown when no YouTube video is loaded *)
  | msg_share_instructions    (* shown before the tab-share dialog *)
  | msg_select_file_first     (* shown when no file is selected *)
  | msg_cannot_start          (* shown by the catch block *)
  | msg_bad_youtube_url.

Inductive Exn := InvalidStateError | NotAllowedError | EncodingError.

Inductive Var :=
  | v_isRecording | v_recordingTime | v_stream | v_transcribedText
  | v_sourceMode | v_youtubeId | v_selectedFile
  | v_mediaRecorderRef | v_timerRef | v_audioCtxRef | v_wakeLockRef
  | v_sessionPromiseRef | v_fileAudioSourceRef.

(** The steps a handler logs, in program order: its calls on the
    platform and its assignments to refs and state. *)
Inductive Call :=
  | new_AudioContext (c : nat)
  | AudioContext_close (c : nat)
  | getUserMedia
  | getDisplayMedia
  | arrayBuffer                 (* [selectedFile.arrayBuffer()] *)
  | decodeAudioData
  | live_connect (k : nat)
  | sendRealtimeInput (k : nat) (data : string)
  | createMediaStreamSource (c s : nat)
  | createBufferSource (c n : nat)
  | MediaRecorder_start (r : nat)
  | MediaRecorder_stop (r : nat)
  | BufferSource_start (n : nat)
  | BufferSource_stop (n : nat)
  | wakeLock_request
  | wakeLock_release (l : nat)
  | setInterval (t : nat)
  | clearInterval (t : nat)
  | alert (m : AlertMsg)
  | console_error
  (** an assignment to a ref or a state setter; [cleared] when the value
      written is [null] *)
  | assign (x : Var) (cleared : bool).

(** *** The handler monad: state, a log of steps, and completions *)

Inductive Completion (A : Type) :=
  | Normal (a : A)
  | Return            (* a [return;] statement was executed *)
  | Throw (e : Exn).
Arguments Normal {A} a.
Arguments Return {A}.
Arguments Throw {A} e.

Definition M (A : Type) : Type := St -> Completion A * St * list Call.

Definition ret {A} (a : A) : M A := fun st => (Normal a, st, []).

Definition bind {A B} (m : M A) (k : A -> M B) : M B := fun st =>
  match m st with
  | (Normal a, st1, tr1) =>
      match k a st1 with (c, st2, tr2) => (c, st2, tr1 ++ tr2) end
  | (Return, st1, tr1) => (Return, st1, tr1)
  | (Throw e, st1, tr1) => (Throw e, st1, tr1)
  end.

Declare Scope handler_scope.
Delimit Scope handler_scope with handler.
Bind Scope handler_scope with M.
Notation "x <- m ;; k" := (bind m (fun x => k))
  (at level 20, m at level 99, k at level 200, only parsing) : handler_scope.
Notation "m ;; k" := (bind m (fun _ => k))
  (at level 100, k at level 200, only parsing, right associativity) : handler_scope.
Local Open Scope handler_scope.

Definition skip : M unit := ret tt.
Definition return_ {A} : M A := fun st => (Return, st, []).
Definition throw {A} (e : Exn) : M A := fun st => (Throw e, st, []).
Definition get : M St := fun st => (Normal st, st, []).
Definition update (f : St -> St) : M unit := fun st => (Normal tt, f st, []).
Definition emit (c : Call) : M unit := fun st => (Normal tt, st, [c]).

(** [try { body } catch (err) { handler }] *)
Definition try_catch {A} (body : M A) (handler : Exn -> M A) : M A := fun st =>
  match body st with
  | (Throw e, st1, tr1) =>
      match handler e st1 with (c, st2, tr2) => (c, st2, tr1 ++ tr2) end
  | r => r
  end.

(** A function call: a [return;] in the body ends the call normally. *)
Definition invoke (body : M unit) : M unit := fun st =>
  match body st with
  | (Return, st1, tr1) => (Normal tt, st1, tr1)
  | r => r
  end.

Definition state_of {A} (r : Completion A * St * list Call) : St := snd (fst r).
Definition log_of {A} (r : Completion A * St * list Call) : list Call := snd r.
Definition completion_of {A} (r : Completion A * St * list Call) : Completion A := fst (fst r).

(** *** State setters and ref assignments *)

Definition is_null {A} (v : option A) : bool :=
  match v with None => true | Some _ => false end.

Definition setIsRecording (v : bool) : M unit :=
  update (on_react (with_isRecording v));; emit (assign v_isRecording false).
Definition setRecordingTime (f : Z -> Z) : M unit :=
  update (on_react (fun s => with_recordingTime (f (recordingTime s)) s));;
  emit (assign v_recordingTime false).
Definition setStream (v : option nat) : M unit :=
  update (on_react (with_stream v));; emit (assign v_stream (is_null v)).
Definition setTranscribedText (f : string -> string) : M unit :=
  update (on_react (fun s => with_transcribedText (f (transcribedText s)) s));;
  emit (assign v_transcribedText false).
Definition setSourceMode (v : SourceMode) : M unit :=
  update (on_react (with_sourceMode v));; emit (assign v_sourceMode false).
Definition setYoutubeId (v : option string) : M unit :=
  update (on_react (with_youtubeId v));; emit (assign v_youtubeId (is_null v)).
Definition setSelectedFile (v : option string) : M unit :=
  update (on_react (with_selectedFile v));; emit (assign v_selectedFile (is_null v)).

Definition set_mediaRecorderRef (v : option nat) : M unit :=
  update (on_refs (with_mediaRecorderRef v));; emit (assign v_mediaRecorderRef (is_null v)).
Definition set_timerRef (v : option nat) : M unit :=
  update (on_refs (with_timerRef v));; emit (assign v_timerRef (is_null v)).
Definition set_audioCtxRef (v : option nat) : M unit :=
  update (on_refs (with_audioCtxRef v));; emit (assign v_audioCtxRef (is_null v)).
Definition set_wakeLockRef (v : option nat) : M unit :=
  update (on_refs (with_wakeLockRef v));; emit (assign v_wakeLockRef (is_null v)).
Definition set_sessionPromiseRef (v : option nat) : M unit :=
  update (on_refs (with_sessionPromiseRef v));; emit (assign v_sessionPromiseRef (is_null v)).
Definition set_fileAudioSourceRef (v : option nat) : M unit :=
  update (on_refs (with_fileAudioSourceRef v));; emit (assign v_fileAudioSourceRef (is_null v)).

(** [ref.current] *)
Definition current (ref : Refs -> option nat) : M (option nat) :=
  st <- get;; ret (ref (refs st)).

(** *** Platform operations *)

(** [new AudioContext({ sampleRate: 16000 })] *)
Definition AudioContext_new : M nat :=
  st <- get;;
  let c := length (contexts (world st)) in
  update (on_world (fun w => with_contexts (contexts w ++ [mkCtx false false]) w));;
  emit (new_AudioContext c);;
  ret c.

(** [audioCtx.close()] *)
Definition close (c : nat) : M unit :=
  update (on_world (fun w =>
    with_contexts (alter (fun x => mkCtx true (ctx_tapped x)) c (contexts w)) w));;
  emit (AudioContext_close c).

(** [source.connect(scriptProcessor); scriptProcessor.connect(audioCtx.destination)] *)
Definition connect_tap (c : nat) : M unit :=
  update (on_world (fun w =>
    with_contexts (alter (fun x => mkCtx (ctx_closed x) true) c (contexts w)) w)).

(** The stream a fulfilled [getUserMedia] or [getDisplayMedia] delivers. *)
Definition deliver_stream (hasAudio : bool) : M nat :=
  st <- get;;
  let s := length (streams (world st)) in
  update (on_world (fun w => with_streams (streams w ++ [mkStream true hasAudio]) w));;
  ret s.

(** [audioCtx.createMediaStreamSource(captureStream)]: fails on a stream
    without an audio track. *)
Definition AudioContext_createMediaStreamSource (c s : nat) : M unit :=
  st <- get;;
  match streams (world st) !! s with
  | Some ms =>
      if has_audio_track ms then emit (createMediaStreamSource c s)
      else throw InvalidStateError
  | None => throw InvalidStateError
  end.

(** [new MediaRecorder(captureStream)] *)
Definition MediaRecorder_new : M nat :=
  st <- get;;
  let r := length (recorders (world st)) in
  update (on_world (fun w => with_recorders (recorders w ++ [inactive]) w));;
  ret r.

Definition MediaRecorder_state (r : nat) : M RecorderState :=
  st <- get;;
  ret (default inactive (recorders (world st) !! r)).

(** [mediaRecorder.start()] *)
Definition start_recorder (r : nat) : M unit :=
  update (on_world (fun w => with_recorders (<[r := recording]> (recorders w)) w));;
  emit (MediaRecorder_start r).

(** [mediaRecorder.stop()]: an [InvalidStateError] on an inactive recorder. *)
Definition stop_recorder (r : nat) : M unit :=
  st <- get;;
  match recorders (world st) !! r with
  | Some recording =>
      update (on_world (fun w => with_recorders (<[r := inactive]> (recorders w)) w));;
      emit (MediaRecorder_stop r)
  | _ => throw InvalidStateError
  end.

(** [audioCtx.createBufferSource()], with [source.onended] as installed
    by the render [r]. *)
Definition AudioContext_createBufferSource (c : nat) (r : Render) : M nat :=
  st <- get;;
  let n := length (nodes (world st)) in
  update (on_world (fun w => with_nodes (nodes w ++ [mkNode false false r]) w));;
  emit (createBufferSource c n);;
  ret n.

(** [source.start()] *)
Definition start_source (n : nat) : M unit :=
  update (on_world (fun w =>
    with_nodes (alter (fun x => mkNode true (node_stopped x) (node_closure x)) n (nodes w)) w));;
  emit (BufferSource_start n).

(** [source.stop()]: an [InvalidStateError] on a node that was never
    started; stopping again is allowed. *)
Definition stop_source (n : nat) : M unit :=
  st <- get;;
  match nodes (world st) !! n with
  | Some nd =>
      if node_started nd then
        update (on_world (fun w =>
          with_nodes (<[n := mkNode true true (node_closure nd)]> (nodes w)) w));;
        emit (BufferSource_stop n)
      else throw InvalidStateError
  | None => throw InvalidStateError
  end.

(** [ai.live.connect({... callbacks ...})]: returns the session promise at
    once; [fulfils] tells whether the connection will be established. *)
Definition connect (r : Render) (fulfils : bool) : M nat :=
  st <- get;;
  let k := length (sessions (world st)) in
  update (on_world (fun w => with_sessions (sessions w ++ [mkSession r fulfils false]) w));;
  emit (live_connect k);;
  ret k.

(** [wakeLock.release()] *)
Definition release (l : nat) : M unit :=
  update (on_world (fun w => with_wakeLocks (<[l := false]> (wakeLocks w)) w));;
  emit (wakeLock_release l).

(** [window.setInterval(..., 1000)] *)
Definition window_setInterval : M nat :=
  st <- get;;
  let t := length (timers (world st)) in
  update (on_world (fun w => with_timers (timers w ++ [true]) w));;
  emit (setInterval t);;
  ret t.

(** [window.clearInterval(id)] *)
Definition window_clearInterval (t : nat) : M unit :=
  update (on_world (fun w => with_timers (<[t := false]> (timers w)) w));;
  emit (clearInterval t).

(** *** What the environment decides during a start *)

(** How the first awaited request of a start settles: the capture
    ([getUserMedia], [getDisplayMedia]) or the read of the selected file
    ([selectedFile.arrayBuffer()]). *)
Inductive Settled :=
  | Fulfilled (hasAudio : bool)   (* the stream delivered has an audio track *)
  | Rejected (e : Exn).

Inductive WakeLockOutcome := wl_unsupported | wl_granted | wl_denied.

Record Env := mkEnv {
  acquired : Settled;
  (** the rejection of [decodeAudioData], if it rejects *)
  decoded : option Exn;
  connect_fulfils : bool;
  wake : WakeLockOutcome
}.

(** *** The component's functions *)

(** ['wakeLock' in navigator && navigator.wakeLock] (line 61) *)
Definition wakeLock_supported (o : WakeLockOutcome) : bool :=
  match o with wl_unsupported => false | _ => true end.

(** [requestWakeLock] from the settlement of its awaited request on
    (lines 62-64): the lock is stored in the ref, or the rejection is
    swallowed by the empty [catch]. *)
Definition wakeLock_settles (o : WakeLockOutcome) : M unit :=
  match o with
  | wl_granted =>
      st <- get;;
      let l := length (wakeLocks (world st)) in
      update (on_world (fun w => with_wakeLocks (wakeLocks w ++ [true]) w));;
      set_wakeLockRef (Some l)
  | _ => skip
  end.

(** [requestWakeLock] (lines 60-66), run without interruption: the
    request is skipped when the API is missing. *)
Definition requestWakeLock (o : WakeLockOutcome) : M unit :=
  if wakeLock_supported o then
    emit wakeLock_request;;
    wakeLock_settles o
  else skip.

(** [stopRecording] (lines 68-93), as memoised by a render in which
    [isRecording] had the given value.  The refs hold objects or positive
    timer ids, so their truthiness tests are tests for [null]. *)
Definition stopRecording (isRecording : bool) : M unit :=
  if isRecording then
    mediaRecorder <- current mediaRecorderRef;;
    match mediaRecorder with
    | Some r =>
        state <- MediaRecorder_state r;;
        match state with
        | inactive => skip
        | recording => stop_recorder r
        end
    | None => skip
    end;;
    fileAudioSource <- current fileAudioSourceRef;;
    match fileAudioSource with
    | Some n => stop_source n
    | None => skip
    end;;
    audioCtx <- current audioCtxRef;;
    match audioCtx with
    | Some c => close c;; set_audioCtxRef None
    | None => skip
    end;;
    setIsRecording false;;
    wakeLock <- current wakeLockRef;;
    match wakeLock with
    | Some l => release l;; set_wakeLockRef None
    | None => skip
    end;;
    timer <- current timerRef;;
    match timer with
    | Some t => window_clearInterval t;; set_timerRef None
    | None => skip
    end;;
    set_sessionPromiseRef None;;
    setStream None
  else skip.

(** The toggle at the head of [startConversion] (lines 111-114). *)
Definition toggle (r : Render) : M unit :=
  if r_isRecording r then
    invoke (stopRecording (r_isRecording r));;
    return_
  else skip.

(** "1. source setup" (lines 117-147), up to the first [await]: the
    request for the capture or for the bytes of the selected file; yields
    the local [audioCtx]. *)
Definition acquire_source (r : Render) : M nat :=
  audioCtx <- AudioContext_new;;
  set_audioCtxRef (Some audioCtx);;
  match r_sourceMode r with
  | mic => emit getUserMedia
  | youtube =>
      match r_youtubeId r with
      | None => emit (alert msg_load_video_first);; close audioCtx;; return_
      | Some _ => skip
      end;;
      emit (alert msg_share_instructions);;
      emit getDisplayMedia
  | audio | video =>
      match r_selectedFile r with
      | None => emit (alert msg_select_file_first);; close audioCtx;; return_
      | Some _ => skip
      end;;
      emit arrayBuffer
  end;;
  ret audioCtx.

(** The settlement of the first awaited request (lines 124, 137, 147):
    the local [captureStream], which stays [null] in the file modes. *)
Definition source_settles (r : Render) (env : Env) : M (option nat) :=
  match r_sourceMode r, acquired env with
  | mic, Fulfilled _ => s <- deliver_stream true;; ret (Some s)
  | youtube, Fulfilled a => s <- deliver_stream a;; ret (Some s)
  | (audio | video), Fulfilled _ => ret None
  | _, Rejected e => throw e
  end.

(** The settlement of the awaited [audioCtx.decodeAudioData] (line 148). *)
Definition decode_settles (env : Env) : M unit :=
  match decoded env with
  | Some e => throw e
  | None => skip
  end.

(** Lines 151-223, from [setStream(captureStream)] to
    [setIsRecording(true)]: "2. Gemini Live connection" and "3. audio
    streaming".  Nothing is awaited here: the session promise is stored
    unsettled. *)
Definition open_session (r : Render) (audioCtx : nat) (captureStream : option nat) (env : Env)
  : M unit :=
  let audioBuffer :=
    match r_sourceMode r with audio | video => true | _ => false end in
  setStream captureStream;;
  setTranscribedText (fun _ => EmptyString);;
  setRecordingTime (fun _ => 0);;
  sessionPromise <- connect r (connect_fulfils env);;
  set_sessionPromiseRef (Some sessionPromise);;
  match captureStream with
  | Some s =>
      AudioContext_createMediaStreamSource audioCtx s;;
      connect_tap audioCtx;;
      mediaRecorder <- MediaRecorder_new;;
      set_mediaRecorderRef (Some mediaRecorder);;
      start_recorder mediaRecorder
  | None =>
      if audioBuffer then
        source <- AudioContext_createBufferSource audioCtx r;;
        connect_tap audioCtx;;
        set_fileAudioSourceRef (Some source);;
        start_source source
      else skip
  end;;
  setIsRecording true.

(** Lines 225-227: the interval that counts the seconds. *)
Definition start_timer : M unit :=
  t <- window_setInterval;;
  set_timerRef (Some t).

(** The rest of the [try] block (lines 147-227), from the settlement of
    the first awaited request on, run without interruption: every later
    awaited request settles at once. *)
Definition run_session (r : Render) (audioCtx : nat) (env : Env) : M unit :=
  captureStream <- source_settles r env;;
  match r_sourceMode r with
  | audio | video => emit decodeAudioData;; decode_settles env
  | _ => skip
  end;;
  open_session r audioCtx captureStream env;;
  requestWakeLock (wake env);;
  start_timer.

(** The [catch] block of [startConversion] (lines 229-232). *)
Definition on_start_failure (err : Exn) : M unit :=
  emit console_error;;
  emit (alert msg_cannot_start).

(** [startConversion] of the render [r], run without interruption. *)
Definition startConversion (r : Render) (env : Env) : M unit :=
  invoke (
    toggle r;;
    try_catch
      (audioCtx <- acquire_source r;; run_session r audioCtx env)
      on_start_failure).

(** *** Callbacks installed by [startConversion] *)

Record Transcription := mkTranscription { text : option string }.
Record ServerContent := mkServerContent { inputTranscription : option Transcription }.
Record LiveServerMessage := mkMessage { serverContent : option ServerContent }.

(** The string a value contributes to [prev + text]. *)
Definition toString (v : option string) : string :=
  match v with Some t => t | None => "undefined" end.

(** [onmessage] (lines 165-170) *)
Definition onmessage (message : LiveServerMessage) : M unit :=
  match serverContent message with
  | Some content =>
      match inputTranscription content with
      | Some transcription =>
          let text := text transcription in
          setTranscribedText (fun prev => String.append prev (toString text))
      | None => skip
      end
  | None => skip
  end.

(** [onerror] (line 171) *)
Definition onerror : M unit := emit console_error.

(** [onclose] (line 172), installed by the render [r] *)
Definition onclose (r : Render) : M unit := invoke (stopRecording (r_isRecording r)).

(** [source.onended] (line 220), installed by the render [r] *)
Definition onended (r : Render) : M unit := invoke (stopRecording (r_isRecording r)).

(** [scriptProcessor.onaudioprocess] (lines 179-192): the frame is sent
    on the session the ref holds when the tick runs, if its promise
    fulfils. *)
Definition onaudioprocess (inputData : list Pcm.sample) : M unit :=
  let base64Data := Pcm.encode_frame inputData in
  sessionPromise <- current sessionPromiseRef;;
  match sessionPromise with
  | Some k =>
      st <- get;;
      match sessions (world st) !! k with
      | Some session =>
          if sess_fulfils session then emit (sendRealtimeInput k base64Data) else skip
      | None => skip
      end
  | None => skip
  end.

(** The interval callback (lines 225-227). *)
Definition ontick : M unit := setRecordingTime (fun prev => prev + 1).

(** *** The component as an event-driven machine *)

Definition initial : St :=
  mkSt (mkReact false 0 None EmptyString mic None None)
       (mkRefs None None None None None None)
       (mkWorld [] [] [] [] [] [] []).

(** The [disabled] attribute of the conversion button (lines 349-352). *)
Definition button_disabled (r : Render) : bool :=
  match r_sourceMode r with
  | audio | video => is_null (r_selectedFile r)
  | youtube => is_null (r_youtubeId r)
  | mic => false
  end.

(** What the environment can do to the mounted component, apart from
    pressing the conversion button: the callbacks of a session, the audio
    tick of a context, the end of a file source, an interval tick, the
    unmount, and the inputs of the form. *)
Inductive Event :=
  | ev_message (message : LiveServerMessage)
  | ev_error (k : nat)
  | ev_close (k : nat)
  | ev_audioprocess (c : nat) (inputData : list Pcm.sample)
  | ev_ended (n : nat)
  | ev_interval (t : nat)
  | ev_unmount
  | ev_mode (m : SourceMode)      (* a mode tab, disabled while recording *)
  | ev_file (f : string)          (* [handleFileChange] *)
  | ev_youtube (id : option string).  (* [handleYoutubeLoad] on the extracted id *)

(** The handler an event runs.  A callback runs only if its object
    exists and can still fire; the unmount runs the cleanup of the first
    render's effect (lines 49-52). *)
Definition handle (e : Event) : M unit :=
  match e with
  | ev_message message => onmessage message
  | ev_error k => onerror
  | ev_close k =>
      st <- get;;
      match sessions (world st) !! k with
      | Some session =>
          update (on_world (fun w =>
            with_sessions (<[k := mkSession (sess_closure session) (sess_fulfils session) true]>
                             (sessions w)) w));;
          onclose (sess_closure session)
      | None => skip
      end
  | ev_audioprocess c inputData =>
      st <- get;;
      match contexts (world st) !! c with
      | Some ctx =>
          if negb (ctx_closed ctx) && ctx_tapped ctx then onaudioprocess inputData else skip
      | None => skip
      end
  | ev_ended n =>
      st <- get;;
      match nodes (world st) !! n with
      | Some node => if node_started node then onended (node_closure node) else skip
      | None => skip
      end
  | ev_interval t =>
      st <- get;;
      match timers (world st) !! t with
      | Some true => ontick
      | _ => skip
      end
  | ev_unmount => invoke (stopRecording (r_isRecording (render initial)))
  | ev_mode m =>
      st <- get;;
      if isRecording (react st) then skip
      else setSourceMode m;; setSelectedFile None
  | ev_file f => setSelectedFile (Some f)
  | ev_youtube id =>
      match id with
      | Some _ => setYoutubeId id
      | None => emit (alert msg_bad_youtube_url)
      end
  end.

(** A press of the conversion button runs the current render's
    [startConversion]. *)
Definition press (env : Env) : M unit :=
  st <- get;;
  if button_disabled (render st) then skip
  else startConversion (render st) env.

(** **** Runs in which every [startConversion] settles before the next
    event *)

Inductive Action :=
  | event (e : Event)
  | click (env : Env).

Definition act (a : Action) : M unit :=
  match a with
  | event e => handle e
  | click env => press env
  end.

Definition step (a : Action) (st : St) : St := state_of (act a st).

Definition run (l : list Action) (st : St) : St := fold_left (fun s a => step a s) l st.

(** The states of such runs. *)
Definition sequential (st : St) : Prop := exists l, st = run l initial.

(** **** Runs in which other events, further presses included, may come
    before an awaited request settles *)

(** The requests a [startConversion] awaits, in program order. *)
Inductive Await :=
  | await_source      (* the capture or the bytes of the file: lines 124, 137, 147 *)
  | await_decode      (* [decodeAudioData]: line 148 *)
  | await_wake_lock.  (* [wakeLock.request], awaited from line 224: line 63 *)

(** A [startConversion] suspended at an [await]: the render it belongs
    to, its local [audioCtx] and the request it awaits. *)
Record Pending := mkPending { p_render : Render; p_audioCtx : nat; p_await : Await }.

(** [startConversion] up to its first [await]. *)
Definition press_begin (r : Render) : M Pending :=
  toggle r;;
  audioCtx <- acquire_source r;;
  ret (mkPending r audioCtx await_source).

(** Lines 151-224, up to the [await] in [requestWakeLock]; where the API
    is missing nothing is requested and the start runs to its end. *)
Definition to_wake_lock (r : Render) (audioCtx : nat) (captureStream : option nat) (env : Env)
  : M (option Pending) :=
  open_session r audioCtx captureStream env;;
  if wakeLock_supported (wake env) then
    emit wakeLock_request;;
    ret (Some (mkPending r audioCtx await_wake_lock))
  else
    start_timer;;
    ret None.

(** The [try] block from the settlement of the awaited request to the
    next [await], if there is one.  Each settlement reads from [env] what
    it awaits: the capture or the read of the file from [acquired], the
    decoding from [decoded], the wake-lock request from [wake], where
    [wl_granted] is the grant and anything else the rejection that the
    empty [catch] swallows. *)
Definition resume (p : Pending) (env : Env) : M (option Pending) :=
  let r := p_render p in
  let audioCtx := p_audioCtx p in
  match p_await p with
  | await_source =>
      captureStream <- source_settles r env;;
      match r_sourceMode r with
      | audio | video =>
          emit decodeAudioData;;
          ret (Some (mkPending r audioCtx await_decode))
      | _ => to_wake_lock r audioCtx captureStream env
      end
  | await_decode =>
      decode_settles env;;
      to_wake_lock r audioCtx None env
  | await_wake_lock =>
      wakeLock_settles (wake env);;
      start_timer;;
      ret None
  end.

(** [startConversion] from an [await] on, up to the next one. *)
Definition press_settle (p : Pending) (env : Env) : M (option Pending) :=
  try_catch (resume p env) (fun err => on_start_failure err;; ret None).

Inductive AsyncAction :=
  | a_event (e : Event)
  | a_click                          (* a press; the start runs to its first [await] *)
  | a_settle (i : nat) (env : Env).  (* the request the [i]-th suspended start awaits settles *)

Definition async_step (a : AsyncAction) (cfg : St * list Pending) : St * list Pending :=
  let '(st, pending) := cfg in
  match a with
  | a_event e => (state_of (handle e st), pending)
  | a_click =>
      if button_disabled (render st) then cfg
      else
        match press_begin (render st) st with
        | (Normal p, st1, _) => (st1, pending ++ [p])
        | (_, st1, _) => (st1, pending)
        end
  | a_settle i env =>
      match pending !! i with
      | Some p =>
          match press_settle p env st with
          | (Normal (Some p'), st1, _) => (st1, <[i := p']> pending)
          | (_, st1, _) => (st1, delete i pending)
          end
      | None => cfg
      end
  end.

Definition async_run (l : list AsyncAction) (cfg : St * list Pending) : St * list Pending :=
  fold_left (fun c a => async_step a c) l cfg.

(** The states the component can reach. *)
Definition reachable (st : St) : Prop :=
  exists l pending, async_run l (initial, []) = (st, pending).

(** *** Notions used to state the properties *)

(** Concatenation of texts with no separator. *)
Definition concatenation (ts : list string) : string :=
  fold_right String.append EmptyString ts.

(** A message that carries the transcript fragment [t]. *)
Definition fragment (t : string) : Event :=
  ev_message (mkMessage (Some (mkServerContent (Some (mkTranscription (Some t)))))).

(** What an event appends to the transcript. *)
Definition contribution (e : Event) : string :=
  match e with
  | ev_message (mkMessage (Some (mkServerContent (Some (mkTranscription t))))) => toString t
  | _ => EmptyString
  end.

Definition async_contribution (a : AsyncAction) : string :=
  match a with
  | a_event e => contribution e
  | _ => EmptyString
  end.

(** The settlement runs line 152, which empties the transcript: it is the
    fulfilment of the last request a start awaits for its source. *)
Definition empties_transcript (pending : list Pending) (a : AsyncAction) : bool :=
  match a with
  | a_settle i env =>
      match pending !! i with
      | Some p =>
          match p_await p, r_sourceMode (p_render p), acquired env with
          | await_source, (mic | youtube), Fulfilled _ => true
          | await_decode, _, _ => is_null (decoded env)
          | _, _, _ => false
          end
      | None => false
      end
  | _ => false
  end.

(** No action of the run empties the transcript. *)
Fixpoint undisturbed (l : list AsyncAction) (cfg : St * list Pending) : Prop :=
  match l with
  | [] => True
  | a :: rest => empties_transcript (snd cfg) a = false /\ undisturbed rest (async_step a cfg)
  end.


(** The releases among the steps of a handler. *)
Definition is_release (c : Call) : bool :=
  match c with
  | MediaRecorder_stop _ | BufferSource_stop _ | AudioContext_close _
  | wakeLock_release _ | clearInterval _ => true
  | _ => false
  end.

Definition releases (tr : list Call) : list Call := List.filter is_release tr.

(** Whether a release occurs among the steps that come before the session
    reference is cleared. *)
Fixpoint released_before_clear (tr : list Call) : bool :=
  match tr with
  | [] => false
  | assign v_sessionPromiseRef true :: _ => false
  | c :: rest => is_release c || released_before_clear rest
  end.

(** The calls of a log, without the assignments. *)
Definition is_assign (c : Call) : bool :=
  match c with assign _ _ => true | _ => false end.
Definition calls (tr : list Call) : list Call := List.filter (fun c => negb (is_assign c)) tr.

(** *** Measures on states *)


(** Sessions opened and not closed by the service. *)
Definition active_sessions (st : St) : nat :=
  length (List.filter (fun s => negb (sess_closed s)) (sessions (world st))).

(** The file source the controller refers to has been started. *)
Definition source_started (st : St) : Prop :=
  forall n, fileAudioSourceRef (refs st) = Some n ->
    exists node, nodes (world st) !! n = Some node /\ node_started node = true.

(** *** Invariants *)


(** The closures held by sessions and file sources were made by idle
    renders. *)
Definition closures_idle (st : St) : Prop :=
  (forall k s, sessions (world st) !! k = Some s -> r_isRecording (sess_closure s) = false)
  /\ (forall n nd, nodes (world st) !! n = Some nd -> r_isRecording (node_closure nd) = false).

(** The conditions under which teardown cannot fail and callbacks are
    stale. *)
Definition well_formed (st : St) : Prop := source_started st /\ closures_idle st.

(** A configuration of the asynchronous machine: every pending start was
    issued by an idle render. *)
Definition config_ok (cfg : St * list Pending) : Prop :=
  well_formed (fst cfg)
  /\ Forall (fun p => r_isRecording (p_render p) = false) (snd cfg).


(** The asynchronous actions of a run in which starts settle at once: a
    press and the settlements of the requests it awaits, of which there
    are at most three. *)
Definition asynchronous (a : Action) : list AsyncAction :=
  match a with
  | event e => [a_event e]
  | click env => [a_click; a_settle 0 env; a_settle 0 env; a_settle 0 env]
  end.

(** *** Scenarios *)

(** Capture granted, connection established, wake lock granted. *)
Definition granted : Env := mkEnv (Fulfilled true) None true wl_granted.



(** Recording from the microphone. *)
Definition mic_recording : St := run [click granted] initial.

(** Recording from an uploaded audio file. *)
Definition file_recording : St :=
  run [event (ev_mode audio); event (ev_file "lecture.mp3"); click granted] initial.

(** Audio mode chosen, no file selected. *)
Definition audio_no_file : St := run [event (ev_mode audio)] initial.

(** *** Sequences of audio ticks *)


End Recorder.

(** ** The receiving side of a frame *)

(** What the service has to do to recover the samples of a frame: the
    inverse of [Pcm.btoa] (RFC 4648, padded) and of the byte view. *)
Module Wire.

Fixpoint index_of (c : ascii) (s : string) (i : Z) : option Z :=
  match s with
  | EmptyString => None
  | String d rest => if Ascii.eqb c d then Some i else index_of c rest (i + 1)
  end.

(** The value of a Base64 digit. *)
Definition digit_value (c : ascii) : option Z := index_of c Pcm.alphabet 0.

Definition is_pad (c : ascii) : bool := Ascii.eqb c "=".

(** The bytes of the last group of four characters, which may be padded. *)
Definition last_group (c1 c2 c3 c4 : ascii) : option (list Z) :=
  match digit_value c1, digit_value c2 with
  | Some d1, Some d2 =>
      let b1 := Z.lor (Z.shiftl d1 2) (Z.shiftr d2 4) in
      if is_pad c4 then
        if is_pad c3 then Some [b1]
        else
          match digit_value c3 with
          | Some d3 => Some [b1; Z.lor (Z.shiftl (Z.land d2 15) 4) (Z.shiftr d3 2)]
          | None => None
          end
      else
        match digit_value c3, digit_value c4 with
        | Some d3, Some d4 =>
            Some [b1; Z.lor (Z.shiftl (Z.land d2 15) 4) (Z.shiftr d3 2);
                  Z.lor (Z.shiftl (Z.land d3 3) 6) d4]
        | _, _ => None
        end
  | _, _ => None
  end.

Fixpoint atob (s : string) : option (list Z) :=
  match s with
  | EmptyString => Some []
  | String c1 (String c2 (String c3 (String c4 rest))) =>
      match rest with
      | EmptyString => last_group c1 c2 c3 c4
      | _ =>
          match last_group c1 c2 c3 c4, is_pad c4, atob rest with
          | Some group, false, Some bytes => Some (group ++ bytes)
          | _, _, _ => None
          end
      end
  | _ => None
  end.

(** The signed 16-bit value of two bytes, low byte first. *)
Definition int16_of_bytes (lo hi : Z) : Z :=
  let u := lo + 256 * hi in
  if 32768 <=? u then u - 65536 else u.

Fixpoint int16_view (bytes : list Z) : option (list Z) :=
  match bytes with
  | [] => Some []
  | lo :: hi :: rest =>
      match int16_view rest with
      | Some samples => Some (int16_of_bytes lo hi :: samples)
      | None => None
      end
  | _ => None
  end.

Definition decode_frame (data : string) : option (list Z) :=
  match atob data with
  | Some bytes => int16_view bytes
  | None => None
  end.

(** The bytes [0 .. 255]. *)
Definition all_bytes : list Z := map Z.of_nat (seq 0 256).

Definition is_byte (b : Z) : Prop := 0 <= b < 256.

(** A Base64 digit is one character that is no padding and has the value
    it stands for. *)
Definition digit_ok (n : Z) : bool :=
  match Pcm.digit n with
  | String c EmptyString =>
      negb (is_pad c) && match digit_value c with Some v => v =? n | None => false end
  | _ => false
  end.

End Wire.

(** ** The YouTube address form *)

Module Youtube.

(** *** Regular expressions, as far as [extractYoutubeId] uses them

    A text is the sequence of its code units, taken to be below 256.  The
    matcher is the backtracking matcher of ECMAScript: a pattern is run
    against the rest of the input with a continuation, alternatives are
    tried left to right, and the star and the question mark are greedy. *)

Inductive CharClass :=
  | lit (c : ascii)             (* a pattern character *)
  | dot                         (* [.] *)
  | word                        (* [\w] *)
  | none_of (cs : list ascii).  (* a negated class *)

Inductive Re :=
  | Chr (k : CharClass)
  | Cat (r1 r2 : Re)
  | Alt (r1 r2 : Re)
  | Star (k : CharClass)
  | Opt (k : CharClass)
  | Group (n : nat) (r : Re)
  | Start.                      (* [^] *)

Definition code (c : ascii) : N := N_of_ascii c.

Definition is_line_terminator (c : ascii) : bool :=
  N.eqb (code c) 10 || N.eqb (code c) 13.

Definition is_word (c : ascii) : bool :=
  let n := code c in
  (N.leb 97 n && N.leb n 122) || (N.leb 65 n && N.leb n 90)
  || (N.leb 48 n && N.leb n 57) || N.eqb n 95.

Definition accepts (k : CharClass) (c : ascii) : bool :=
  match k with
  | lit d => Ascii.eqb c d
  | dot => negb (is_line_terminator c)
  | word => is_word c
  | none_of cs => negb (existsb (Ascii.eqb c) cs)
  end.

Definition Captures : Type := nat -> option string.

Definition no_captures : Captures := fun _ => None.

Definition capture (n : nat) (text : string) (caps : Captures) : Captures :=
  fun i => if Nat.eqb i n then Some text else caps i.

(** A continuation receives the rest of the input, its index and the
    captures so far. *)
Definition Cont : Type := string -> nat -> Captures -> option Captures.

(** The part of [s] that lies before its suffix [rest]. *)
Definition consumed (s rest : string) : string :=
  substring 0 (String.length s - String.length rest) s.

Fixpoint star (k : CharClass) (s : string) (pos : nat) (caps : Captures) (c : Cont)
  : option Captures :=
  match s with
  | String ch rest =>
      if accepts k ch then
        match star k rest (S pos) caps c with
        | Some r => Some r
        | None => c s pos caps
        end
      else c s pos caps
  | EmptyString => c s pos caps
  end.

Fixpoint matcher (r : Re) (s : string) (pos : nat) (caps : Captures) (c : Cont)
  : option Captures :=
  match r with
  | Chr k =>
      match s with
      | String ch rest => if accepts k ch then c rest (S pos) caps else None
      | EmptyString => None
      end
  | Cat r1 r2 => matcher r1 s pos caps (fun s1 pos1 caps1 => matcher r2 s1 pos1 caps1 c)
  | Alt r1 r2 =>
      match matcher r1 s pos caps c with
      | Some x => Some x
      | None => matcher r2 s pos caps c
      end
  | Star k => star k s pos caps c
  | Opt k =>
      match s with
      | String ch rest =>
          if accepts k ch then
            match c rest (S pos) caps with
            | Some x => Some x
            | None => c s pos caps
            end
          else c s pos caps
      | EmptyString => c s pos caps
      end
  | Group n r =>
      matcher r s pos caps (fun s1 pos1 caps1 => c s1 pos1 (capture n (consumed s s1) caps1))
  | Start => if Nat.eqb pos 0 then c s pos caps else None
  end.

(** [RegExp.prototype.exec] without flags: the first index from which
    the pattern matches. *)
Fixpoint exec_from (r : Re) (s : string) (pos : nat) : option Captures :=
  match matcher r s pos no_captures (fun _ _ caps => Some caps) with
  | Some caps => Some caps
  | None =>
      match s with
      | String _ rest => exec_from r rest (S pos)
      | EmptyString => None
      end
  end.

Definition exec (r : Re) (s : string) : option Captures := exec_from r s 0.

(** A sequence of pattern characters. *)
Fixpoint chars (ks : list CharClass) : Re :=
  match ks with
  | [] => Start   (* not used: sequences are never empty *)
  | [k] => Chr k
  | k :: rest => Cat (Chr k) (chars rest)
  end.

Definition text (s : string) : Re := chars (map lit (list_ascii_of_string s)).

(** *** [extractYoutubeId] (lines 19-23) *)

(** The alternatives [(youtu.be\/)|(v\/)|(\/u\/\w\/)|(embed\/)|(watch\?)]. *)
Definition markers : Re :=
  Alt (Group 2 (chars [lit "y"; lit "o"; lit "u"; lit "t"; lit "u"; dot;
                       lit "b"; lit "e"; lit "/"]))
  (Alt (Group 3 (text "v/"))
  (Alt (Group 4 (chars [lit "/"; lit "u"; lit "/"; word; lit "/"]))
  (Alt (Group 5 (text "embed/"))
       (Group 6 (text "watch?"))))).

(** The pattern, written here with spaces between its parts:
    [^ .* ( (youtu.be\/) | (v\/) | (\/u\/\w\/) | (embed\/) | (watch\?) )
     \?? v? =? ( [^#&?]* ) .*] *)
Definition regExp : Re :=
  Cat Start
  (Cat (Star dot)
  (Cat (Group 1 markers)
  (Cat (Opt (lit "?"))
  (Cat (Opt (lit "v"))
  (Cat (Opt (lit "="))
  (Cat (Group 7 (Star (none_of ["#"; "&"; "?"]%char)))
       (Star dot))))))).

(** [(match && match[7].length === 11) ? match[7] : null]; the seventh
    group takes part in every match. *)
Definition extractYoutubeId (url : string) : option string :=
  match exec regExp url with
  | Some caps =>
      match caps 7%nat with
      | Some id => if Nat.eqb (String.length id) 11 then Some id else None
      | None => None
      end
  | None => None
  end.

(** *** The parts of a match

    The pattern is its start, the greedy [.*], the marker group and a
    tail in which nothing is mandatory. *)

(** The continuation that ends a match. *)
Definition matched : Cont := fun _ _ caps => Some caps.

Definition id_class : CharClass := none_of ["#"; "&"; "?"]%char.

(** The tail of the pattern, from the optional characters on. *)
Definition after_marker : Re :=
  Cat (Opt (lit "?"))
  (Cat (Opt (lit "v"))
  (Cat (Opt (lit "="))
  (Cat (Group 7 (Star id_class))
       (Star dot)))).

(** What the first [.*] continues with. *)
Definition from_marker : Cont :=
  fun s pos caps => matcher (Cat (Group 1 markers) after_marker) s pos caps matched.

(** *** Notions used to state the properties *)

(** No character of the text is [c]. *)
Fixpoint lacks (c : ascii) (s : string) : Prop :=
  match s with
  | EmptyString => True
  | String d rest => Ascii.eqb d c = false /\ lacks c rest
  end.

(** Every character of the text is accepted by the class. *)
Fixpoint all_accepted (k : CharClass) (s : string) : Prop :=
  match s with
  | EmptyString => True
  | String d rest => accepts k d = true /\ all_accepted k rest
  end.

(** What may follow the id in an address: nothing, or a part that begins
    with [#], [&] or [?]. *)
Definition ends_id (rest : string) : Prop :=
  match rest with
  | EmptyString => True
  | String d _ => accepts id_class d = false
  end.

(** The text begins with [m]. *)
Fixpoint begins (m s : string) : bool :=
  match m, s with
  | EmptyString, _ => true
  | String a m', String b s' => Ascii.eqb b a && begins m' s'
  | String _ _, EmptyString => false
  end.

(** [m] occurs somewhere in the text. *)
Fixpoint occurs (m s : string) : bool :=
  begins m s
  || match s with
     | String _ rest => occurs m rest
     | EmptyString => false
     end.

(** The text begins with [v] or with [=]. *)
Definition begins_with_v_or_equals (s : string) : bool :=
  match s with
  | String d _ => Ascii.eqb d "v" || Ascii.eqb d "="
  | EmptyString => false
  end.

(** The text without a leading [c]. *)
Definition strip (c : ascii) (s : string) : string :=
  match s with
  | String d rest => if Ascii.eqb d c then rest else s
  | EmptyString => s
  end.

(** The longest beginning of the text whose characters the class accepts,
    and what follows it. *)
Fixpoint accepted_prefix (k : CharClass) (s : string) : string :=
  match s with
  | String d rest => if accepts k d then String d (accepted_prefix k rest) else EmptyString
  | EmptyString => EmptyString
  end.

Fixpoint rest_behind (k : CharClass) (s : string) : string :=
  match s with
  | String d rest => if accepts k d then rest_behind k rest else s
  | EmptyString => EmptyString
  end.

(** What the seventh group holds when the tail of the pattern is matched
    against [s]. *)
Definition id_part (s : string) : string :=
  accepted_prefix id_class (strip "=" (strip "v" (strip "?" s))).

(** The continuation fails at every later index of the text. *)
Fixpoint fails_inside (c : Cont) (caps : Captures) (s : string) : Prop :=
  match s with
  | EmptyString => True
  | String _ rest => (forall pos, c rest pos caps = None) /\ fails_inside c caps rest
  end.

(** The marker texts that have no wildcard. *)
Definition plain_markers : list string :=
  ["youtu.be/"; "v/"; "embed/"; "watch?"]%string.

End Youtube.

(** ** The form *)

Module Form.
Import Recorder.
Local Open Scope handler_scope.

(** [handleYoutubeLoad] (lines 101-108), run on the text of the address
    field. *)
Definition handleYoutubeLoad (youtubeUrl : string) : M unit :=
  match Youtube.extractYoutubeId youtubeUrl with
  | Some id => setYoutubeId (Some id)
  | None => emit (alert msg_bad_youtube_url)
  end.

End Form.

(** * Properties *)

(** ** Proof support for handlers *)

Import Recorder.
Local Open Scope handler_scope.

Ltac unfold_ops :=
  unfold
    setIsRecording, setRecordingTime, setStream, setTranscribedText, setSourceMode,
    setYoutubeId, setSelectedFile, set_mediaRecorderRef, set_timerRef, set_audioCtxRef,
    set_wakeLockRef, set_sessionPromiseRef, set_fileAudioSourceRef, current,
    AudioContext_new, close, connect_tap, deliver_stream,
    AudioContext_createMediaStreamSource, MediaRecorder_new, MediaRecorder_state,
    start_recorder, stop_recorder, AudioContext_createBufferSource, start_source,
    stop_source, connect, release, window_setInterval, window_clearInterval,
    requestWakeLock, wakeLock_supported, wakeLock_settles, source_settles, decode_settles,
    open_session, start_timer,
    bind, ret, skip, return_, throw, get, update, emit, try_catch, invoke,
    state_of, log_of, completion_of, on_react, on_refs, on_world, default, from_option in *.

(** Case analysis on the innermost undetermined test of the goal. *)
Ltac destruct_inner :=
  match goal with
  | |- context [match ?x with _ => _ end] =>
      lazymatch x with
      | context [match _ with _ => _ end] => fail
      | _ => destruct x eqn:?
      end
  end.

Ltac exec := unfold_ops; cbn; repeat (destruct_inner; cbn).

(** A step that differs by its constructor from every step of a list. *)
Ltac distinct_calls :=
  rewrite ?not_elem_of_cons; repeat split; try discriminate; apply not_elem_of_nil.

(** ** PCM frame encoder *)

Section EncoderFacts.
Import Pcm.

Lemma wrap16_ToInt16 (t : Z) :
  (let int16bit := t mod 65536 in
   if 32768 <=? int16bit then int16bit - 65536 else int16bit) = wrap16 t.
Proof.
  unfold wrap16. cbv zeta.
  destruct (Z.leb_spec 32768 (t mod 65536)); Z.div_mod_to_equations; lia.
Qed.

Lemma ToInt16_wrap16 (x : sample) : ToInt16 x = wrap16 (truncate x).
Proof. unfold ToInt16. apply wrap16_ToInt16. Qed.

Lemma wrap16_in_range (t : Z) : -32768 <= t <= 32767 -> wrap16 t = t.
Proof. unfold wrap16. intros H. Z.div_mod_to_equations. lia. Qed.

Lemma Qpower_2_pos (e : Z) : (0 < Qpower 2 e)%Q.
Proof. apply Qpower_0_lt. reflexivity. Qed.

(** The magnitude [m * 2^e * 32768] truncates to a shift of the mantissa. *)
Lemma Qfloor_scaled_magnitude (m : positive) (e : Z) :
  Qfloor (inject_Z (Z.pos m) * Qpower 2 e * 32768) = Z.shiftl (Z.pos m) (e + 15).
Proof.
  assert (E : (inject_Z (Z.pos m) * Qpower 2 e * 32768 == inject_Z (Z.pos m) * Qpower 2 (e + 15))%Q).
  { rewrite Qpower_plus by discriminate. change (Qpower 2 15) with 32768%Q. ring. }
  rewrite (Qfloor_comp _ _ E).
  destruct (Z.le_gt_cases 0 (e + 15)) as [Hk | Hk].
  - rewrite Z.shiftl_mul_pow2 by assumption.
    assert (E2 : (inject_Z (Z.pos m) * Qpower 2 (e + 15) == inject_Z (Z.pos m * 2 ^ (e + 15)))%Q).
    { rewrite inject_Z_mult. rewrite <- (Zpower_Qpower 2 (e + 15)) by assumption. reflexivity. }
    rewrite (Qfloor_comp _ _ E2). apply Qfloor_Z.
  - rewrite Z.shiftl_div_pow2 by lia.
    assert (Hp : 0 < 2 ^ (- (e + 15))) by (apply Z.pow_pos_nonneg; lia).
    assert (E2 : (inject_Z (Z.pos m) * Qpower 2 (e + 15)
                  == Qmake (Z.pos m) (Z.to_pos (2 ^ (- (e + 15)))))%Q).
    { replace (e + 15) with (- (- (e + 15))) at 1 by lia.
      rewrite Qpower_opp. rewrite <- (Zpower_Qpower 2 (- (e + 15))) by lia.
      unfold Qeq, Qinv, Qmult, inject_Z. cbn [Qnum Qden].
      destruct (2 ^ (- (e + 15))) as [|p|p] eqn:Ep; try lia.
      cbn. lia. }
    rewrite (Qfloor_comp _ _ E2). unfold Qfloor.
    rewrite Z2Pos.id by assumption. reflexivity.
Qed.

Lemma magnitude_pos (m : positive) (e : Z) :
  (0 < inject_Z (Z.pos m) * Qpower 2 e)%Q.
Proof.
  apply Qmult_lt_0_compat; [| apply Qpower_2_pos].
  unfold Qlt, inject_Z. cbn. lia.
Qed.

(** The store truncates exactly the real product [x * 32768]. *)
Lemma truncate_scale (x : sample) (q : Q) :
  value x = Some q -> truncate (scale x) = scaled q.
Proof.
  destruct x as [s | s | | s m e]; cbn [value scale truncate]; intros H; inversion H; subst; clear H.
  - reflexivity.
  - pose proof (magnitude_pos m e) as Hpos.
    pose proof (Qfloor_scaled_magnitude m e) as Hfl.
    unfold scaled, Qtrunc. destruct s.
    + assert (Hneg : (- (inject_Z (Z.pos m) * Qpower 2 e) * 32768 < 0)%Q).
      { assert (E : (- (inject_Z (Z.pos m) * Qpower 2 e) * 32768
                     == - (inject_Z (Z.pos m) * Qpower 2 e * 32768))%Q) by ring.
        rewrite E.
        assert (H : (0 < inject_Z (Z.pos m) * Qpower 2 e * 32768)%Q)
          by (apply Qmult_lt_0_compat; [assumption | reflexivity]).
        apply Qopp_lt_compat in H. exact H. }
      destruct (Qle_bool 0 (- (inject_Z (Z.pos m) * Qpower 2 e) * 32768)) eqn:Eb.
      * apply Qle_bool_iff in Eb. exfalso. apply (Qlt_not_le _ _ Hneg Eb).
      * unfold Qceiling.
        assert (E : (- (- (inject_Z (Z.pos m) * Qpower 2 e) * 32768)
                     == inject_Z (Z.pos m) * Qpower 2 e * 32768)%Q) by ring.
        rewrite (Qfloor_comp _ _ E), Hfl. reflexivity.
    + destruct (Qle_bool 0 (inject_Z (Z.pos m) * Qpower 2 e * 32768)) eqn:Eb.
      * exact (eq_sym Hfl).
      * exfalso. assert (Hle : (0 <= inject_Z (Z.pos m) * Qpower 2 e * 32768)%Q).
        { apply Qlt_le_weak. apply Qmult_lt_0_compat; [assumption | reflexivity]. }
        apply Qle_bool_iff in Hle. congruence.
Qed.

Lemma Qtrunc_comp (p q : Q) : (p == q)%Q -> Qtrunc p = Qtrunc q.
Proof.
  intros E. unfold Qtrunc.
  assert (Eb : Qle_bool 0 p = Qle_bool 0 q).
  { destruct (Qle_bool 0 p) eqn:Hp, (Qle_bool 0 q) eqn:Hq; try reflexivity.
    - apply Qle_bool_iff in Hp. rewrite E in Hp. apply Qle_bool_iff in Hp. congruence.
    - apply Qle_bool_iff in Hq. rewrite <- E in Hq. apply Qle_bool_iff in Hq. congruence. }
  rewrite Eb. destruct (Qle_bool 0 q).
  - apply Qfloor_comp, E.
  - apply Qceiling_comp, E.
Qed.

(** Within [-1, 1) the scaled value fits sixteen bits. *)
Lemma scaled_in_range (q : Q) :
  (-1 <= q)%Q -> (q < 1)%Q -> -32768 <= scaled q <= 32767.
Proof.
  intros Hlo Hhi. unfold scaled, Qtrunc.
  assert (Hlo' : (inject_Z (-32768) <= q * 32768)%Q).
  { change (inject_Z (-32768)) with ((-1) * 32768)%Q.
    apply Qmult_le_compat_r; [assumption | discriminate]. }
  assert (Hhi' : (q * 32768 < inject_Z 32768)%Q).
  { change (inject_Z 32768) with (1 * 32768)%Q.
    apply Qmult_lt_compat_r; [reflexivity | assumption]. }
  destruct (Qle_bool 0 (q * 32768)) eqn:Eb.
  - apply Qle_bool_iff in Eb. split.
    + pose proof (Qfloor_resp_le _ _ Eb) as H0. change (Qfloor 0) with 0 in H0. lia.
    + pose proof (Qfloor_le (q * 32768)) as Hf.
      assert (Hlt : (inject_Z (Qfloor (q * 32768)) < inject_Z 32768)%Q)
        by (eapply Qle_lt_trans; eassumption).
      rewrite <- Zlt_Qlt in Hlt. lia.
  - split.
    + pose proof (Qceiling_resp_le _ _ Hlo') as Hc. rewrite Qceiling_Z in Hc. exact Hc.
    + assert (Hneg : (q * 32768 <= 0)%Q).
      { apply Qnot_lt_le. intros Hpos. apply Qlt_le_weak in Hpos.
        apply Qle_bool_iff in Hpos. congruence. }
      pose proof (Qceiling_resp_le _ _ Hneg) as Hc. change (Qceiling 0) with 0 in Hc. lia.
Qed.

Lemma to_int16_zero_block (block : list sample) :
  Forall (fun x => is_zero x = true) block ->
  to_int16_array block = repeat 0 (length block).
Proof.
  induction 1 as [| x l Hx _ IH]; cbn [to_int16_array map length repeat].
  - reflexivity.
  - fold (to_int16_array l). rewrite IH. f_equal.
    destruct x; try discriminate. reflexivity.
Qed.

Lemma uint8_view_zeros (n : nat) : uint8_view (repeat 0 n) = repeat 0 (2 * n).
Proof.
  induction n as [| n IH]; [reflexivity |].
  replace (2 * S n)%nat with (S (S (2 * n))) by lia.
  cbn [repeat uint8_view flat_map]. fold (uint8_view (repeat 0 n)). rewrite IH. reflexivity.
Qed.

(** The binary string of [n] zero bytes is [n] characters of code 0. *)
Lemma binary_of_zeros (n : nat) (acc : string) :
  fold_left (fun binary b => String.append binary (fromCharCode b)) (repeat 0 n) acc
  = String.append acc (string_of_list_ascii (repeat zero n)).
Proof.
  revert acc. induction n as [| n IH]; intros acc; cbn [repeat fold_left string_of_list_ascii].
  - induction acc as [| c acc IHa]; cbn; [reflexivity | rewrite <- IHa; reflexivity].
  - rewrite IH. clear IH.
    induction acc as [| c acc IHa]; cbn; [reflexivity | rewrite IHa; reflexivity].
Qed.

Lemma encode_zeros (n : nat) : encode (repeat 0 n) = btoa_codes (repeat 0 n).
Proof.
  unfold encode, btoa. rewrite binary_of_zeros. cbn [String.append]. f_equal.
  induction n as [| n IH]; cbn [repeat string_of_list_ascii list_ascii_of_string map];
    [reflexivity | rewrite IH; reflexivity].
Qed.

(** Three zero bytes are four letters [A]; two zero bytes at the end are
    three letters [A] and one [=]. *)
Lemma btoa_codes_zeros (k : nat) :
  btoa_codes (repeat 0 (k * 3 + 2))
  = string_of_list_ascii (repeat "A"%char (k * 4 + 3) ++ ["="%char]).
Proof.
  induction k as [| k IH]; [reflexivity |].
  change (S k * 3 + 2)%nat with (S (S (S (k * 3 + 2)))).
  change (S k * 4 + 3)%nat with (S (S (S (S (k * 4 + 3))))).
  cbn [repeat]. cbn [btoa_codes]. rewrite IH. reflexivity.
Qed.

End EncoderFacts.

Section EncoderTheorems.
Import Pcm.

(** C8 (as amended).  For every sample [x] with a real value [q] the
    encoder stores [q * 32768] truncated toward zero and reduced modulo
    [2^16] into the signed range, with no clamping: for [q] in [-1, 1)
    this is the scaled value itself, at full scale [q = 1] the stored
    value is [-32768], and beyond the range the value wraps where a
    clamping encoder would saturate (1.5 gives -16384, not 32767).  NaN and
    the infinities are stored as [0]. *)
Theorem pcm_conversion_wraps :
  (forall x : sample,
     match value x with
     | Some q =>
         ToInt16 (scale x) = wrap16 (scaled q)
         /\ ((-1 <= q)%Q -> (q < 1)%Q -> ToInt16 (scale x) = scaled q)
         /\ ((q == 1)%Q -> ToInt16 (scale x) = -32768)
     | None => ToInt16 (scale x) = 0
     end)
  /\ (let y := S754_finite false 3 (-1) in
      value y = Some (3 # 2)%Q
      /\ ToInt16 (scale y) = -16384
      /\ saturate16 (scaled (3 # 2)) = 32767).
Proof.
  split.
  - intros x. destruct (value x) as [q |] eqn:Hv.
    + pose proof (truncate_scale x q Hv) as Ht.
      assert (Hw : ToInt16 (scale x) = wrap16 (scaled q))
        by (rewrite ToInt16_wrap16, Ht; reflexivity).
      split; [exact Hw |]. split.
      * intros Hlo Hhi. rewrite Hw. apply wrap16_in_range, scaled_in_range; assumption.
      * intros H1. rewrite Hw. unfold scaled.
        assert (E : (q * 32768 == 32768)%Q) by (rewrite H1; reflexivity).
        rewrite (Qtrunc_comp _ _ E). reflexivity.
    + destruct x; try discriminate; reflexivity.
  - cbv zeta. repeat split; vm_compute; reflexivity.
Qed.

(** A half-scale sample, inside the range, is stored as its scaled value. *)
Lemma pcm_conversion_wraps_witness :
  ToInt16 (scale (S754_finite false 1 (-1))) = scaled (1 # 2).
Proof.
  pose proof (proj1 pcm_conversion_wraps (S754_finite false 1 (-1))) as H.
  cbn [value] in H. destruct H as [_ [H _]].
  rewrite H.
  - apply Qtrunc_comp. vm_compute. reflexivity.
  - vm_compute. discriminate.
  - vm_compute. reflexivity.
Defined.

(** C8 (as stated) fails at full scale: the sample [1.0] lies in [-1, 1],
    its scaled value is [32768], and the encoder stores [-32768]. *)
Lemma full_scale_sample_wraps :
  let x := S754_finite false 1 0 in
  value x = Some (inject_Z 1 * Qpower 2 0)%Q
  /\ (-1 <= inject_Z 1 * Qpower 2 0)%Q /\ (inject_Z 1 * Qpower 2 0 <= 1)%Q
  /\ scaled (inject_Z 1 * Qpower 2 0) = 32768
  /\ ToInt16 (scale x) = -32768
  /\ ToInt16 (scale x) <> scaled (inject_Z 1 * Qpower 2 0).
Proof.
  cbv zeta. repeat split; try (vm_compute; congruence).
Qed.

(** C9.  A block of 4096 zero samples (of either sign) is encoded to the
    Base64 text of 8192 zero bytes, which is 10923 letters [A] followed by
    one [=]; the text is the same for every such block. *)
Theorem zero_block_base64 (block : list sample) :
  length block = 4096%nat ->
  Forall (fun x => is_zero x = true) block ->
  encode_frame block = encode (repeat 0 (2 * 4096))
  /\ encode_frame block = string_of_list_ascii (repeat "A"%char (3 * 3641) ++ ["="%char]).
Proof.
  intros Hlen Hzero. unfold encode_frame.
  rewrite (to_int16_zero_block block Hzero), Hlen, uint8_view_zeros.
  split; [reflexivity |].
  rewrite encode_zeros. exact (btoa_codes_zeros 2730).
Qed.

Lemma zero_block_base64_witness :
  encode_frame (repeat (S754_zero false) 4096)
  = string_of_list_ascii (repeat "A"%char (3 * 3641) ++ ["="%char]).
Proof.
  refine (proj2 (zero_block_base64 (repeat (S754_zero false) 4096) _ _)).
  - vm_compute. reflexivity.
  - apply List.Forall_forall. intros x Hx. apply repeat_spec in Hx. subst x. reflexivity.
Defined.

End EncoderTheorems.

(** ** Recording lifecycle *)

Section LifecycleFacts.

Lemma stopRecording_idle (st : St) : stopRecording false st = (Normal tt, st, []).
Proof. reflexivity. Qed.

(** With the referenced file source started, teardown runs to its end. *)
Lemma stopRecording_completes (b : bool) (st : St) :
  source_started st -> completion_of (stopRecording b st) = Normal tt.
Proof.
  intros Hs. destruct b; [| reflexivity].
  unfold source_started in Hs. unfold stopRecording. exec; try reflexivity; exfalso.
  all: try congruence.
  all: try (destruct (Hs _ eq_refl) as [nd [Hn Hst]]; congruence).
Qed.

Lemma stopRecording_never_returns (b : bool) (st : St) :
  completion_of (stopRecording b st) <> Return.
Proof.
  destruct b; [| discriminate]. unfold stopRecording. exec; discriminate.
Qed.

Lemma stopRecording_clears_flag (st : St) :
  completion_of (stopRecording true st) = Normal tt ->
  isRecording (react (state_of (stopRecording true st))) = false.
Proof.
  unfold stopRecording. exec; intros H; try discriminate; reflexivity.
Qed.

Lemma stopRecording_releases_once (b : bool) (st : St) :
  NoDup (releases (log_of (stopRecording b st))).
Proof.
  destruct b; [| apply NoDup_nil_2].
  unfold stopRecording. exec.
  all: repeat (apply NoDup_cons; split; [distinct_calls |]); apply NoDup_nil_2.
Qed.

End LifecycleFacts.

Section TranscriptFacts.

Lemma append_empty_r (s : string) : String.append s EmptyString = s.
Proof. induction s as [| c s IH]; cbn; [reflexivity | rewrite IH; reflexivity]. Qed.

Lemma append_assoc (a b c : string) :
  String.append (String.append a b) c = String.append a (String.append b c).
Proof. induction a as [| x a IH]; cbn; [reflexivity | rewrite IH; reflexivity]. Qed.

(** Teardown leaves the React state alone apart from [isRecording] and
    [stream], whatever its outcome. *)
Lemma stopRecording_transcribedText (b : bool) (st : St) :
  transcribedText (react (state_of (stopRecording b st))) = transcribedText (react st).
Proof. destruct b; [| reflexivity]. unfold stopRecording. exec; reflexivity. Qed.

Lemma handle_transcribedText (e : Event) (st : St) :
  transcribedText (react (state_of (handle e st)))
  = String.append (transcribedText (react st)) (contribution e).
Proof.
  destruct e as [message | k | k | c inputData | n | t | | m | f | id]; cbn [handle contribution].
  - destruct message as [[[[[t] |]] |]]; cbn; try (rewrite append_empty_r); reflexivity.
  - rewrite append_empty_r. reflexivity.
  - rewrite append_empty_r. unfold onclose. unfold_ops. cbn.
    destruct (sessions (world st) !! k) as [s |]; cbn; [| reflexivity].
    match goal with |- context [stopRecording ?b ?s0] =>
      pose proof (stopRecording_transcribedText b s0) as H;
      pose proof (stopRecording_never_returns b s0) as Hr end.
    unfold_ops. cbn in *. destruct (stopRecording _ _) as [[[] ?] ?]; cbn in *; congruence.
  - rewrite append_empty_r. unfold onaudioprocess. exec; reflexivity.
  - rewrite append_empty_r. unfold onended. unfold_ops. cbn.
    destruct (nodes (world st) !! n) as [nd |]; cbn; [| reflexivity].
    destruct (node_started nd); cbn; [| reflexivity].
    pose proof (stopRecording_transcribedText (r_isRecording (node_closure nd)) st) as H.
    unfold_ops. destruct (stopRecording _ _) as [[[] ?] ?]; cbn in *; congruence.
  - rewrite append_empty_r. unfold ontick. exec; reflexivity.
  - rewrite append_empty_r. reflexivity.
  - rewrite append_empty_r. exec; reflexivity.
  - rewrite append_empty_r. reflexivity.
  - rewrite append_empty_r. destruct id; reflexivity.
Qed.

Lemma run_events_transcribedText (es : list Event) (st : St) :
  transcribedText (react (run (map event es) st))
  = String.append (transcribedText (react st)) (concatenation (map contribution es)).
Proof.
  revert st. induction es as [| e es IH]; intros st; cbn [map run fold_left concatenation fold_right].
  - rewrite append_empty_r. reflexivity.
  - fold (run (map event es) (step (event e) st)). rewrite IH.
    unfold step. cbn [act]. rewrite handle_transcribedText, append_assoc. reflexivity.
Qed.

Lemma contribution_fragment (ts : list string) :
  map contribution (map fragment ts) = ts.
Proof. induction ts as [| t ts IH]; cbn; [reflexivity | f_equal; exact IH]. Qed.

(** A start that ends in Recording has emptied the transcript. *)
Lemma startConversion_resets_transcript (st : St) (env : Env) :
  isRecording (react st) = false ->
  isRecording (react (state_of (startConversion (render st) env st))) = true ->
  transcribedText (react (state_of (startConversion (render st) env st))) = EmptyString.
Proof.
  intros Hidle. unfold startConversion, toggle, acquire_source, run_session, on_start_failure, render.
  rewrite Hidle. cbn [r_isRecording r_sourceMode r_youtubeId r_selectedFile].
  exec; intros H; cbn in *; congruence.
Qed.

Lemma press_begin_transcribedText (st : St) :
  transcribedText (react (state_of (press_begin (render st) st))) = transcribedText (react st).
Proof.
  destruct (isRecording (react st)) eqn:Hrec.
  - pose proof (stopRecording_transcribedText true st) as H.
    unfold press_begin, toggle, render. cbn [r_isRecording]. rewrite Hrec.
    revert H. unfold_ops. destruct (stopRecording true st) as [[[] ?] ?]; cbn; exact (fun H => H).
  - unfold press_begin, toggle, acquire_source, render. rewrite Hrec.
    cbn [r_isRecording r_sourceMode r_youtubeId r_selectedFile]. exec; reflexivity.
Qed.

(** A settlement that does not run line 152 leaves the transcript as it
    is; one that does leaves it empty. *)
Lemma press_settle_transcribedText (p : Pending) (env : Env) (st : St) :
  transcribedText (react (state_of (press_settle p env st)))
  = match p_await p, r_sourceMode (p_render p), acquired env with
    | await_source, (mic | youtube), Fulfilled _ => EmptyString
    | await_decode, _, _ =>
        if is_null (decoded env) then EmptyString else transcribedText (react st)
    | _, _, _ => transcribedText (react st)
    end.
Proof.
  destruct p as [[? ? m ? ?] c aw]. destruct env as [acq dec conn wk].
  unfold press_settle, resume, to_wake_lock, on_start_failure.
  cbn [p_render p_audioCtx p_await r_sourceMode acquired decoded wake connect_fulfils].
  destruct aw, m, acq as [a | e], dec; exec; reflexivity.
Qed.

Lemma async_step_transcribedText (a : AsyncAction) (cfg : St * list Pending) :
  transcribedText (react (fst (async_step a cfg)))
  = if empties_transcript (snd cfg) a then EmptyString
    else String.append (transcribedText (react (fst cfg))) (async_contribution a).
Proof.
  destruct cfg as [st pending]. destruct a as [e | | i env]; cbn [async_step snd fst].
  - cbn. apply handle_transcribedText.
  - cbn [empties_transcript async_contribution]. rewrite append_empty_r.
    destruct (button_disabled (render st)); [reflexivity |].
    pose proof (press_begin_transcribedText st) as H. revert H. unfold state_of.
    destruct (press_begin (render st) st) as [[[] ?] ?]; cbn; exact (fun H => H).
  - cbn [empties_transcript async_contribution]. rewrite append_empty_r.
    destruct (pending !! i) as [p |]; [| reflexivity].
    pose proof (press_settle_transcribedText p env st) as H. revert H. unfold state_of.
    destruct (press_settle p env st) as [[[[] | | ] ?] ?]; cbn; intros ->;
      destruct (p_await p), (r_sourceMode (p_render p)), (acquired env), (decoded env);
      reflexivity.
Qed.

Lemma undisturbed_transcribedText (l : list AsyncAction) (cfg : St * list Pending) :
  undisturbed l cfg ->
  transcribedText (react (fst (async_run l cfg)))
  = String.append (transcribedText (react (fst cfg))) (concatenation (map async_contribution l)).
Proof.
  revert cfg. induction l as [| a l IH]; intros cfg H; cbn [async_run fold_left map concatenation fold_right].
  - rewrite append_empty_r. reflexivity.
  - destruct H as [Ha Hl]. fold (async_run l (async_step a cfg)).
    rewrite (IH _ Hl), async_step_transcribedText, Ha, append_assoc. reflexivity.
Qed.

End TranscriptFacts.

Section TranscriptTheorem.

(** C1 (as amended).  The transcript is emptied when the last request a
    start awaits for its source is fulfilled (line 152).  From then on,
    whatever happens (fragments, audio ticks, timer ticks, errors, closes,
    presses of the button, the settlement of the wake-lock request), the
    transcript is the concatenation, in arrival order and with no
    separator, of the texts of the fragments received since, as long as no
    other start has such a request fulfilled in the meantime.  In
    particular, where the start settles before the next event and puts
    the component in Recording, the events that follow leave the
    concatenation of their fragments, and a sequence of fragments [ts]
    alone yields the concatenation of [ts]. *)
Theorem transcript_is_concatenation :
  (forall (cfg : St * list Pending) (a : AsyncAction) (l : list AsyncAction),
     empties_transcript (snd cfg) a = true ->
     undisturbed l (async_step a cfg) ->
     transcribedText (react (fst (async_run l (async_step a cfg))))
     = concatenation (map async_contribution l))
  /\ (forall (st : St) (env : Env),
     isRecording (react st) = false ->
     let st1 := state_of (startConversion (render st) env st) in
     isRecording (react st1) = true ->
     (forall es : list Event,
        transcribedText (react (run (map event es) st1)) = concatenation (map contribution es))
     /\ (forall ts : list string,
        transcribedText (react (run (map event (map fragment ts)) st1)) = concatenation ts)).
Proof.
  split.
  - intros cfg a l Ha Hl. rewrite (undisturbed_transcribedText l _ Hl).
    rewrite async_step_transcribedText, Ha. reflexivity.
  - intros st env Hidle st1 Hrec.
    assert (Hempty : transcribedText (react st1) = EmptyString)
      by (apply startConversion_resets_transcript; assumption).
    assert (Hall : forall es : list Event,
      transcribedText (react (run (map event es) st1)) = concatenation (map contribution es)).
    { intros es. rewrite run_events_transcribedText, Hempty. reflexivity. }
    split; [exact Hall |].
    intros ts. rewrite Hall, contribution_fragment. reflexivity.
Qed.

(** The fragments "hel" and "lo world" of a microphone session, the
    second one arriving after the wake lock was granted and a timer tick
    after both. *)
Lemma transcript_is_concatenation_witness :
  transcribedText
    (react (run (map event (map fragment ["hel"; "lo world"]%string)) mic_recording))
  = "hello world"%string
  /\ transcribedText
       (react (fst (async_run
          [a_click; a_settle 0 granted; a_event (fragment "hel"); a_settle 0 granted;
           a_event (fragment "lo world"); a_event (ev_interval 0)] (initial, []))))
     = "hello world"%string.
Proof.
  split.
  - exact (proj2 (proj2 transcript_is_concatenation initial granted eq_refl eq_refl)
             ["hel"; "lo world"]%string).
  - refine (proj1 transcript_is_concatenation
              (async_run [a_click] (initial, [])) (a_settle 0 granted)
              [a_event (fragment "hel"); a_settle 0 granted;
               a_event (fragment "lo world"); a_event (ev_interval 0)] _ _).
    + reflexivity.
    + cbn. repeat split; reflexivity.
Defined.

(** C1 (as stated) fails: a start requested while an earlier start still
    awaits the microphone empties the transcript when its own capture is
    granted, in the middle of the recording the earlier start began.  The
    fragment "hel" arrives before that settlement and "lo world" after it;
    the component is Recording throughout and the transcript ends as
    "lo world". *)
Lemma overlapping_start_empties_transcript :
  let before := async_run [a_click; a_click; a_settle 0 granted; a_settle 0 granted;
                           a_event (fragment "hel")] (initial, []) in
  let between := async_step (a_settle 0 granted) before in
  let after := async_run [a_settle 0 granted; a_event (fragment "lo world")] between in
  reachable (fst after)
  /\ isRecording (react (fst before)) = true
  /\ transcribedText (react (fst before)) = "hel"%string
  /\ isRecording (react (fst between)) = true
  /\ transcribedText (react (fst between)) = EmptyString
  /\ isRecording (react (fst after)) = true
  /\ transcribedText (react (fst after)) = "lo world"%string
  /\ transcribedText (react (fst after))
     <> concatenation ["hel"; "lo world"]%string.
Proof.
  cbv zeta. split.
  - exists [a_click; a_click; a_settle 0 granted; a_settle 0 granted; a_event (fragment "hel");
            a_settle 0 granted; a_settle 0 granted; a_event (fragment "lo world")], [].
    vm_compute. reflexivity.
  - repeat split; try (vm_compute; reflexivity). vm_compute. discriminate.
Qed.

End TranscriptTheorem.

Section TeardownTheorems.

Lemma file_recording_source_started : source_started file_recording.
Proof.
  intros n Hn. vm_compute in Hn. injection Hn as <-.
  eexists. split; reflexivity.
Qed.

Lemma mic_recording_source_started : source_started mic_recording.
Proof. intros n Hn. vm_compute in Hn. discriminate. Qed.

(** C2.  From every state in which the referenced file source, if any,
    has been started, a stop ends normally and leaves [isRecording] false;
    a second stop, whether by the current render (a manual stop) or by a
    callback that captured [isRecording = false] (a late [onclose] or
    [onended]), ends normally, leaves the state unchanged and performs no
    step; over the two invocations no release is performed twice. *)
Theorem stop_is_idempotent (st : St) :
  source_started st ->
  let first := stopRecording (isRecording (react st)) st in
  let st1 := state_of first in
  let second := stopRecording (isRecording (react st1)) st1 in
  completion_of first = Normal tt
  /\ isRecording (react st1) = false
  /\ second = (Normal tt, st1, [])
  /\ (forall r : Render, r_isRecording r = false -> onclose r st1 = (Normal tt, st1, []))
  /\ NoDup (releases (log_of first ++ log_of second)).
Proof.
  intros Hs first st1 second.
  assert (Hdone : completion_of first = Normal tt) by (apply stopRecording_completes, Hs).
  assert (Hflag : isRecording (react st1) = false).
  { subst st1 first. revert Hdone. destruct (isRecording (react st)) eqn:E.
    - apply stopRecording_clears_flag.
    - intros _. exact E. }
  assert (Hsecond : second = (Normal tt, st1, [])).
  { subst second. rewrite Hflag. reflexivity. }
  repeat split; try assumption.
  - intros r Hr. unfold onclose. rewrite Hr. reflexivity.
  - rewrite Hsecond. cbn [log_of snd]. rewrite app_nil_r.
    apply stopRecording_releases_once.
Qed.

(** A manual stop of a file session followed by a second stop. *)
Lemma stop_is_idempotent_witness :
  let st1 := state_of (stopRecording true file_recording) in
  stopRecording (isRecording (react st1)) st1 = (Normal tt, st1, []).
Proof.
  exact (proj1 (proj2 (proj2 (stop_is_idempotent file_recording file_recording_source_started)))).
Defined.

End TeardownTheorems.

Section TeardownOrder.

Lemma tick_without_session (inputData : list Pcm.sample) (st : St) :
  sessionPromiseRef (refs st) = None ->
  onaudioprocess inputData st = (Normal tt, st, []).
Proof. intros H. unfold onaudioprocess. unfold_ops. rewrite H. reflexivity. Qed.

Lemma stopRecording_clears_refs (st : St) :
  completion_of (stopRecording true st) = Normal tt ->
  let st' := state_of (stopRecording true st) in
  stream (react st') = None
  /\ audioCtxRef (refs st') = None
  /\ timerRef (refs st') = None
  /\ wakeLockRef (refs st') = None
  /\ sessionPromiseRef (refs st') = None.
Proof.
  unfold stopRecording. exec; intros H; try discriminate; repeat split; assumption.
Qed.

Lemma stopRecording_log_end (st : St) :
  completion_of (stopRecording true st) = Normal tt ->
  exists pre,
    log_of (stopRecording true st)
    = pre ++ [assign v_sessionPromiseRef true; assign v_stream true]
    /\ releases pre = releases (log_of (stopRecording true st)).
Proof.
  unfold stopRecording. exec; intros H; try discriminate.
  all: match goal with
       | |- exists pre, ?l = pre ++ _ /\ _ => exists (firstn (length l - 2) l)
       end; split; reflexivity.
Qed.

End TeardownOrder.

Section TeardownEffects.

Ltac lookup_updated :=
  repeat match goal with
    | H : ?l !! ?i = Some _ |- context [<[?i := _]> ?l !! ?i] =>
        rewrite (list_lookup_insert_eq l i) by (exact (lookup_lt_Some _ _ _ H))
    | |- context [alter _ ?i ?l !! ?i] => rewrite (list_lookup_alter_eq _ l i)
    | H : ?l !! ?i = Some _ |- context [?l !! ?i] => rewrite H
    end.

Lemma stopRecording_world (st : St) :
  completion_of (stopRecording true st) = Normal tt ->
  let st' := state_of (stopRecording true st) in
  (forall c ctx, audioCtxRef (refs st) = Some c -> contexts (world st) !! c = Some ctx ->
     contexts (world st') !! c = Some (mkCtx true (ctx_tapped ctx)))
  /\ (forall t b, timerRef (refs st) = Some t -> timers (world st) !! t = Some b ->
     timers (world st') !! t = Some false)
  /\ (forall l b, wakeLockRef (refs st) = Some l -> wakeLocks (world st) !! l = Some b ->
     wakeLocks (world st') !! l = Some false)
  /\ (forall r x, mediaRecorderRef (refs st) = Some r -> recorders (world st) !! r = Some x ->
     recorders (world st') !! r = Some inactive)
  /\ (forall n nd, fileAudioSourceRef (refs st) = Some n -> nodes (world st) !! n = Some nd ->
     exists nd', nodes (world st') !! n = Some nd' /\ node_stopped nd' = true)
  /\ streams (world st') = streams (world st).
Proof.
  unfold stopRecording. exec; intros H; try discriminate.
  all: repeat split; intros; simplify_eq; cbn; lookup_updated; try reflexivity; try discriminate.
  all: try (eexists; split; [reflexivity | reflexivity]).
Qed.

End TeardownEffects.

Section TeardownClaims.

(** C3 (as amended).  Teardown clears the session reference last among
    its ref updates: every release (recorder, file source, audio context,
    wake lock, timer) comes before it and only the detaching of the stream
    from the UI follows.  Teardown is not interleaved with ticks, and a
    tick that runs once it has completed finds no session and sends no
    frame. *)
Theorem session_reference_cleared_last (st : St) (inputData : list Pcm.sample) :
  source_started st ->
  let r := stopRecording true st in
  (exists pre,
     log_of r = pre ++ [assign v_sessionPromiseRef true; assign v_stream true]
     /\ releases pre = releases (log_of r))
  /\ sessionPromiseRef (refs (state_of r)) = None
  /\ onaudioprocess inputData (state_of r) = (Normal tt, state_of r, []).
Proof.
  intros Hs r.
  assert (Hdone : completion_of r = Normal tt) by (apply stopRecording_completes, Hs).
  assert (Hnull : sessionPromiseRef (refs (state_of r)) = None)
    by (apply (stopRecording_clears_refs st Hdone)).
  split; [apply stopRecording_log_end, Hdone |].
  split; [exact Hnull |].
  apply tick_without_session, Hnull.
Qed.

(** A tick after the teardown of a microphone session. *)
Lemma session_reference_cleared_last_witness :
  let st' := state_of (stopRecording true mic_recording) in
  onaudioprocess [S754_zero false] st' = (Normal tt, st', []).
Proof.
  exact (proj2 (proj2 (session_reference_cleared_last mic_recording [S754_zero false]
                         mic_recording_source_started))).
Defined.

(** C3 (as stated) fails: in the teardown of a microphone session the
    recorder, the audio context, the wake lock and the timer are all
    released before the session reference is cleared. *)
Lemma session_reference_cleared_after_releases :
  log_of (stopRecording true mic_recording)
  = [MediaRecorder_stop 0; AudioContext_close 0; assign v_audioCtxRef true;
     assign v_isRecording false; wakeLock_release 0; assign v_wakeLockRef true;
     clearInterval 0; assign v_timerRef true; assign v_sessionPromiseRef true;
     assign v_stream true]
  /\ released_before_clear (log_of (stopRecording true mic_recording)) = true.
Proof. split; vm_compute; reflexivity. Qed.

(** C4 (as amended).  The stop procedure of a recording render ends
    normally and leaves the component Idle with the stream detached from
    the UI and the context, timer, wake-lock and session references
    cleared; the referenced recorder is inactive, the referenced file
    source stopped, the referenced audio context closed, the timer
    cleared and the wake lock released.  The tracks of the capture stream
    are not stopped: the streams are left as they were. *)
Theorem stop_releases_session_resources (st : St) :
  source_started st ->
  let r := stopRecording true st in
  let st' := state_of r in
  completion_of r = Normal tt
  /\ isRecording (react st') = false
  /\ (stream (react st') = None
      /\ audioCtxRef (refs st') = None
      /\ timerRef (refs st') = None
      /\ wakeLockRef (refs st') = None
      /\ sessionPromiseRef (refs st') = None)
  /\ (forall c ctx, audioCtxRef (refs st) = Some c -> contexts (world st) !! c = Some ctx ->
        contexts (world st') !! c = Some (mkCtx true (ctx_tapped ctx)))
  /\ (forall t b, timerRef (refs st) = Some t -> timers (world st) !! t = Some b ->
        timers (world st') !! t = Some false)
  /\ (forall l b, wakeLockRef (refs st) = Some l -> wakeLocks (world st) !! l = Some b ->
        wakeLocks (world st') !! l = Some false)
  /\ (forall r x, mediaRecorderRef (refs st) = Some r -> recorders (world st) !! r = Some x ->
        recorders (world st') !! r = Some inactive)
  /\ (forall n nd, fileAudioSourceRef (refs st) = Some n -> nodes (world st) !! n = Some nd ->
        exists nd', nodes (world st') !! n = Some nd' /\ node_stopped nd' = true)
  /\ streams (world st') = streams (world st).
Proof.
  intros Hs r st'.
  assert (Hdone : completion_of r = Normal tt) by (apply stopRecording_completes, Hs).
  split; [exact Hdone |].
  split; [apply stopRecording_clears_flag, Hdone |].
  split; [apply (stopRecording_clears_refs st Hdone) |].
  apply (stopRecording_world st Hdone).
Qed.

(** The audio context of a microphone session is closed by the stop. *)
Lemma stop_releases_session_resources_witness :
  contexts (world (state_of (stopRecording true mic_recording))) !! 0%nat
  = Some (mkCtx true true).
Proof.
  exact (proj1 (proj2 (proj2 (proj2
           (stop_releases_session_resources mic_recording mic_recording_source_started))))
           0%nat (mkCtx false true) eq_refl eq_refl).
Defined.

(** C4 (as stated) fails: after the stop of a microphone session the
    capture stream that was shown in the UI still has live tracks. *)
Lemma capture_tracks_survive_stop :
  stream (react mic_recording) = Some 0%nat
  /\ isRecording (react mic_recording) = true
  /\ isRecording (react (state_of (stopRecording true mic_recording))) = false
  /\ streams (world (state_of (stopRecording true mic_recording))) !! 0%nat
     = Some (mkStream true true).
Proof. repeat split; vm_compute; reflexivity. Qed.

End TeardownClaims.

Section StartFacts.

Lemma alter_snoc {A} (f : A -> A) (l : list A) (x : A) :
  alter f (length l) (l ++ [x]) = l ++ [f x].
Proof.
  rewrite <- (Nat.add_0_r (length l)). rewrite alter_app_r. reflexivity.
Qed.

Lemma insert_snoc {A} (l : list A) (x y : A) :
  <[length l := y]> (l ++ [x]) = l ++ [y].
Proof.
  rewrite <- (Nat.add_0_r (length l)). rewrite insert_app_r. reflexivity.
Qed.

Lemma lookup_snoc {A} (l : list A) (x : A) : (l ++ [x]) !! length l = Some x.
Proof. apply list_lookup_middle. reflexivity. Qed.

End StartFacts.

(** Unfolds a start of an idle render and splits it into its cases. *)
Ltac exec_start Hidle :=
  unfold startConversion, toggle, acquire_source, run_session, on_start_failure, render;
  rewrite ?Hidle; cbn [r_isRecording r_sourceMode r_youtubeId r_selectedFile];
  exec.

(** Discards the cases in which a freshly allocated object is missing. *)
Ltac fresh_lookups :=
  repeat match goal with
    | H : (_ ++ [_]) !! length _ = _ |- _ => rewrite lookup_snoc in H; simplify_eq
    end.

Section StartClaims.

(** C5 (as amended).  A start requested in audio mode with no file
    selected creates an audio context and closes it again before
    returning; apart from these two calls it only raises the alert: no
    capture is requested and no session is opened.  It ends normally and
    leaves the React state (Idle included) and every ref other than the
    audio-context ref unchanged. *)
Theorem start_without_file (st : St) (env : Env) :
  isRecording (react st) = false ->
  sourceMode (react st) = audio ->
  selectedFile (react st) = None ->
  let r := startConversion (render st) env st in
  let st' := state_of r in
  let c := length (contexts (world st)) in
  completion_of r = Normal tt
  /\ calls (log_of r) = [new_AudioContext c; alert msg_select_file_first; AudioContext_close c]
  /\ react st' = react st
  /\ with_audioCtxRef (audioCtxRef (refs st)) (refs st') = refs st
  /\ world st' = with_contexts (contexts (world st) ++ [mkCtx true false]) (world st).
Proof.
  intros Hidle Hmode Hfile.
  destruct st as [[? ? ? ? ? ? ?] [? ? ? ? ? ?] [? ? ? ? ? ? ?]]. cbn in Hidle, Hmode, Hfile. subst.
  unfold startConversion, toggle, acquire_source, run_session, on_start_failure, render.
  exec. rewrite alter_snoc. repeat split; reflexivity.
Qed.

Lemma start_without_file_witness :
  calls (log_of (startConversion (render audio_no_file) granted audio_no_file))
  = [new_AudioContext 0; alert msg_select_file_first; AudioContext_close 0].
Proof.
  exact (proj1 (proj2 (start_without_file audio_no_file granted eq_refl eq_refl eq_refl))).
Defined.

(** C5 (as stated) fails: the start in audio mode with no file selected
    creates an audio context, and afterwards the audio-context ref, null
    before, refers to it; the program state is not what it was. *)
Lemma missing_file_start_changes_state :
  let r := startConversion (render audio_no_file) granted audio_no_file in
  sourceMode (react audio_no_file) = audio
  /\ selectedFile (react audio_no_file) = None
  /\ isRecording (react audio_no_file) = false
  /\ In (new_AudioContext 0) (log_of r)
  /\ audioCtxRef (refs audio_no_file) = None
  /\ audioCtxRef (refs (state_of r)) = Some 0%nat
  /\ state_of r <> audio_no_file.
Proof.
  cbv zeta. repeat split; try (vm_compute; reflexivity).
  - vm_compute. tauto.
  - vm_compute. discriminate.
Qed.

(** C7 (as amended).  The error callback of a session only logs: it ends
    normally with the state unchanged and [console.error] as its single
    step, so no number of error events stops a recording; stopping is left
    to the close callback and to the user. *)
Theorem session_error_is_only_logged (st : St) :
  (forall k : nat, handle (ev_error k) st = (Normal tt, st, [console_error]))
  /\ (forall ks : list nat, run (map (fun k => event (ev_error k)) ks) st = st).
Proof.
  split; [reflexivity |].
  intros ks. induction ks as [| k ks IH]; [reflexivity | exact IH].
Qed.

(** C7 (as stated) fails: after an error on the open session of a
    microphone recording the component is still Recording with the
    session referenced and nothing released, unlike after a stop. *)
Lemma session_error_does_not_stop :
  let r := handle (ev_error 0) mic_recording in
  sessionPromiseRef (refs mic_recording) = Some 0%nat
  /\ state_of r = mic_recording
  /\ isRecording (react (state_of r)) = true
  /\ sessionPromiseRef (refs (state_of r)) = Some 0%nat
  /\ releases (log_of r) = []
  /\ state_of r <> state_of (stopRecording true mic_recording).
Proof.
  cbv zeta. repeat split; try (vm_compute; reflexivity).
  vm_compute. discriminate.
Qed.

End StartClaims.

Section StartFailureClaims.




End StartFailureClaims.

Section SingleGraph.







End SingleGraph.

Section SingleGraphSteps.








End SingleGraphSteps.

Section SingleSessionClaims.

Lemma stopRecording_opens_nothing (b : bool) (st : St) :
  Forall (fun c => is_release c || is_assign c = true) (log_of (stopRecording b st)).
Proof.
  destruct b; [| apply Forall_nil_2].
  unfold stopRecording. exec; repeat (apply Forall_cons_2; [reflexivity |]); apply Forall_nil_2.
Qed.

(** A start requested by a recording render is the stop procedure. *)
Lemma startConversion_toggles (st : St) (env : Env) :
  isRecording (react st) = true ->
  startConversion (render st) env st = stopRecording true st.
Proof.
  intros Hrec. pose proof (stopRecording_never_returns true st) as Hnr.
  unfold startConversion, toggle, render. cbn [r_isRecording]. rewrite Hrec.
  revert Hnr. unfold_ops.
  destruct (stopRecording true st) as [[[[] | | e] st1] tr1]; cbn; intros Hnr;
    rewrite ?app_nil_r; try reflexivity; congruence.
Qed.














(** The stop procedure does not close the session: after a stop and a
    new start two sessions are open, one of them no longer referenced. *)
Lemma stop_leaves_session_open :
  let st := run [click granted; click granted; click granted] initial in
  sequential st
  /\ isRecording (react st) = true
  /\ active_sessions st = 2%nat
  /\ sessionPromiseRef (refs st) = Some 1%nat.
Proof.
  cbv zeta. split; [eexists; reflexivity |]. repeat split; vm_compute; reflexivity.
Qed.

End SingleSessionClaims.

Section Reachability.

Lemma well_formed_initial : well_formed initial.
Proof.
  split; [| split].
  - intros n H. discriminate.
  - intros k s H. discriminate.
  - intros n nd H. discriminate.
Qed.

(** What teardown does to sessions, file sources and their ref. *)
Lemma stopRecording_nodes (b : bool) (st : St) :
  let st' := state_of (stopRecording b st) in
  sessions (world st') = sessions (world st)
  /\ fileAudioSourceRef (refs st') = fileAudioSourceRef (refs st)
  /\ (nodes (world st') = nodes (world st)
      \/ exists n nd,
           nodes (world st) !! n = Some nd
           /\ nodes (world st') = <[n := mkNode true true (node_closure nd)]> (nodes (world st))).
Proof.
  destruct b; [| cbn; auto].
  unfold stopRecording. exec; repeat split; try reflexivity; try assumption.
  all: try (left; reflexivity).
  all: right; eexists _, _; split; [eassumption | reflexivity].
Qed.

Lemma well_formed_nodes (st st' : St) :
  sessions (world st') = sessions (world st) ->
  fileAudioSourceRef (refs st') = fileAudioSourceRef (refs st) ->
  (nodes (world st') = nodes (world st)
   \/ exists n nd,
        nodes (world st) !! n = Some nd
        /\ nodes (world st') = <[n := mkNode true true (node_closure nd)]> (nodes (world st))) ->
  well_formed st -> well_formed st'.
Proof.
  intros Hs Hf Hn [Hsrc [Hsess Hnode]].
  unfold well_formed, source_started, closures_idle. rewrite Hs, Hf.
  destruct Hn as [-> | [n [nd [Hl ->]]]]; [auto |].
  split; [| split; [exact Hsess |]].
  - intros j Hj. destruct (decide (n = j)) as [-> | Hne].
    + exists (mkNode true true (node_closure nd)). split; [| reflexivity].
      apply list_lookup_insert_eq. eapply lookup_lt_Some. eassumption.
    + destruct (Hsrc j Hj) as [x [Hx Hst]]. exists x. split; [| exact Hst].
      rewrite list_lookup_insert_ne by exact Hne. exact Hx.
  - intros j x Hj. apply list_lookup_insert_Some in Hj as [[-> [<- ?]] | [? Hj]].
    + cbn. eapply Hnode, Hl.
    + eapply Hnode, Hj.
Qed.

Lemma stopRecording_well_formed (b : bool) (st : St) :
  well_formed st -> well_formed (state_of (stopRecording b st)).
Proof.
  destruct (stopRecording_nodes b st) as [Hs [Hf Hn]].
  apply well_formed_nodes; assumption.
Qed.

End Reachability.

Section ReachabilitySteps.

Lemma well_formed_frame (st st' : St) :
  sessions (world st') = sessions (world st) ->
  nodes (world st') = nodes (world st) ->
  fileAudioSourceRef (refs st') = fileAudioSourceRef (refs st) ->
  well_formed st -> well_formed st'.
Proof.
  intros Hs Hn Hf. unfold well_formed, source_started, closures_idle.
  rewrite Hs, Hn, Hf. exact (fun H => H).
Qed.

(** What a settled start does to sessions, file sources and their ref. *)
Lemma well_formed_extend (st st' : St) :
  (sessions (world st') = sessions (world st)
   \/ exists s, sessions (world st') = sessions (world st) ++ [s]
                /\ r_isRecording (sess_closure s) = false) ->
  ((nodes (world st') = nodes (world st)
    /\ fileAudioSourceRef (refs st') = fileAudioSourceRef (refs st))
   \/ exists nd, nodes (world st') = nodes (world st) ++ [nd]
                 /\ node_started nd = true
                 /\ r_isRecording (node_closure nd) = false
                 /\ fileAudioSourceRef (refs st') = Some (length (nodes (world st)))) ->
  well_formed st -> well_formed st'.
Proof.
  intros Hs Hn [Hsrc [Hsess Hnode]]. split; [| split].
  - intros j Hj. destruct Hn as [[Hn Hf] | [nd [Hn [Hst [_ Hf]]]]].
    + rewrite Hn. apply Hsrc. congruence.
    + rewrite Hn. rewrite Hf in Hj. injection Hj as <-.
      exists nd. split; [apply lookup_snoc | exact Hst].
  - intros k s Hk. destruct Hs as [Hs | [s0 [Hs Hidle]]]; rewrite Hs in Hk.
    + eapply Hsess, Hk.
    + apply lookup_snoc_Some in Hk as [[_ Hk] | [_ <-]]; [eapply Hsess, Hk | exact Hidle].
  - intros j x Hj. destruct Hn as [[Hn _] | [nd [Hn [_ [Hidle _]]]]]; rewrite Hn in Hj.
    + eapply Hnode, Hj.
    + apply lookup_snoc_Some in Hj as [[_ Hj] | [_ <-]]; [eapply Hnode, Hj | exact Hidle].
Qed.

Lemma press_settle_well_formed (p : Pending) (env : Env) (st : St) :
  r_isRecording (p_render p) = false ->
  well_formed st ->
  well_formed (state_of (press_settle p env st))
  /\ (forall p', completion_of (press_settle p env st) = Normal (Some p') ->
        r_isRecording (p_render p') = false).
Proof.
  intros Hidle Hwf. destruct p as [r c aw]. cbn in Hidle. split.
  - revert Hwf. apply well_formed_extend.
    + unfold press_settle, resume, to_wake_lock, on_start_failure. cbn [p_render p_audioCtx p_await].
      destruct aw; exec; fresh_lookups.
      all: first [left; reflexivity | right; eexists; split; [reflexivity | exact Hidle]].
    + unfold press_settle, resume, to_wake_lock, on_start_failure. cbn [p_render p_audioCtx p_await].
      destruct aw; exec; fresh_lookups.
      all: rewrite ?alter_snoc.
      all: first [ left; split; reflexivity
                 | right; eexists; split; [reflexivity |];
                   split; [reflexivity |]; split; [exact Hidle | reflexivity] ].
  - unfold press_settle, resume, to_wake_lock, on_start_failure. cbn [p_render p_audioCtx p_await].
    destruct aw; exec; intros p' Hp'; simplify_eq; exact Hidle.
Qed.

Lemma press_begin_well_formed (st : St) :
  well_formed st ->
  well_formed (state_of (press_begin (render st) st))
  /\ (forall p, completion_of (press_begin (render st) st) = Normal p ->
        r_isRecording (p_render p) = false).
Proof.
  intros Hwf. destruct (isRecording (react st)) eqn:Hrec.
  - pose proof (stopRecording_well_formed true st Hwf) as Hstop.
    pose proof (stopRecording_never_returns true st) as Hnr.
    unfold press_begin, toggle, render. cbn [r_isRecording]. rewrite Hrec.
    revert Hstop Hnr. unfold_ops.
    destruct (stopRecording true st) as [[[] st1] tr1]; cbn; intros Hstop Hnr;
      (split; [exact Hstop || congruence | intros p Hp; discriminate]).
  - split.
    + revert Hwf. apply well_formed_frame.
      all: unfold press_begin, toggle, acquire_source, render; rewrite Hrec;
        cbn [r_isRecording r_sourceMode r_youtubeId r_selectedFile]; exec; reflexivity.
    + unfold press_begin, toggle, acquire_source, render. rewrite Hrec.
      cbn [r_isRecording r_sourceMode r_youtubeId r_selectedFile].
      exec; intros p Hp; simplify_eq; reflexivity.
Qed.

Lemma stop_result_well_formed (b : bool) (st : St) :
  well_formed st -> well_formed (state_of (invoke (stopRecording b) st)).
Proof.
  intros Hwf. pose proof (stopRecording_well_formed b st Hwf) as H.
  revert H. unfold_ops. destruct (stopRecording b st) as [[[] ?] ?]; cbn; exact (fun H => H).
Qed.

Lemma handle_well_formed (e : Event) (st : St) :
  well_formed st -> well_formed (state_of (handle e st)).
Proof.
  intros Hwf.
  destruct e as [message | k | k | c inputData | n | t | | m | f | id]; cbn [handle].
  - revert Hwf. apply well_formed_frame; unfold onmessage; exec; reflexivity.
  - exact Hwf.
  - unfold bind at 1. unfold get. cbn.
    destruct (sessions (world st) !! k) as [s |] eqn:Hk; cbn; [| exact Hwf].
    unfold bind, update. cbn [fst snd].
    match goal with |- context [onclose ?r ?s0] =>
      assert (H0 : well_formed s0); [| pose proof (stop_result_well_formed (r_isRecording r) s0 H0) as H]
    end.
    { destruct Hwf as [Hsrc [Hsess Hnode]]. split; [exact Hsrc | split; [| exact Hnode]].
      intros j x Hj. cbn in Hj.
      apply list_lookup_insert_Some in Hj as [[-> [<- ?]] | [? Hj]]; cbn;
        eapply Hsess; eassumption. }
    unfold onclose. revert H. unfold state_of.
    destruct (invoke _ _) as [[[] ?] ?]; cbn; exact (fun H => H).
  - revert Hwf. apply well_formed_frame; unfold onaudioprocess; exec; reflexivity.
  - unfold bind at 1. unfold get. cbn.
    destruct (nodes (world st) !! n) as [nd |]; cbn; [| exact Hwf].
    destruct (node_started nd); cbn; [| exact Hwf].
    pose proof (stop_result_well_formed (r_isRecording (node_closure nd)) st Hwf) as H.
    unfold onended. revert H. unfold state_of.
    destruct (invoke _ _) as [[[] ?] ?]; cbn; exact (fun H => H).
  - revert Hwf. apply well_formed_frame; unfold ontick; exec; reflexivity.
  - apply stop_result_well_formed, Hwf.
  - revert Hwf. apply well_formed_frame; exec; reflexivity.
  - exact Hwf.
  - destruct id; exact Hwf.
Qed.

Lemma async_step_ok (a : AsyncAction) (cfg : St * list Pending) :
  config_ok cfg -> config_ok (async_step a cfg).
Proof.
  destruct cfg as [st pending]. intros [Hwf Hp]. cbn in Hwf, Hp.
  destruct a as [e | | i env]; cbn [async_step].
  - split; [apply handle_well_formed, Hwf | exact Hp].
  - destruct (button_disabled (render st)); [split; assumption |].
    destruct (press_begin_well_formed st Hwf) as [Hst Hidle].
    revert Hst Hidle. unfold state_of, completion_of.
    destruct (press_begin (render st) st) as [[[p | | e] st1] tr]; cbn; intros Hst Hidle.
    + split; [exact Hst |]. cbn. apply Forall_app_2; [exact Hp |].
      apply Forall_cons_2; [apply Hidle; reflexivity | apply Forall_nil_2].
    + split; assumption.
    + split; assumption.
  - destruct (pending !! i) as [p |] eqn:Hi; [| split; assumption].
    pose proof (proj1 (Forall_lookup _ _) Hp i p Hi) as Hidle. cbn in Hidle.
    destruct (press_settle_well_formed p env st Hidle Hwf) as [Hst Hnext].
    revert Hst Hnext. unfold state_of, completion_of.
    destruct (press_settle p env st) as [[[[p' |] | | e] st1] tr]; cbn; intros Hst Hnext.
    + split; [exact Hst |]. cbn. apply Forall_insert; [exact Hp | apply Hnext; reflexivity].
    + split; [exact Hst | apply Forall_delete, Hp].
    + split; [exact Hst | apply Forall_delete, Hp].
    + split; [exact Hst | apply Forall_delete, Hp].
Qed.

Lemma async_run_ok (l : list AsyncAction) (cfg : St * list Pending) :
  config_ok cfg -> config_ok (async_run l cfg).
Proof.
  revert cfg. induction l as [| a l IH]; intros cfg H; cbn; [exact H |].
  apply IH, async_step_ok, H.
Qed.

(** In every reachable state the referenced file source has been started
    and every installed callback holds an idle render's [stopRecording]. *)
Lemma reachable_well_formed (st : St) : reachable st -> well_formed st.
Proof.
  intros [l [pending H]].
  assert (Hok : config_ok (st, pending)).
  { rewrite <- H. apply async_run_ok. split; [apply well_formed_initial | apply Forall_nil_2]. }
  exact (proj1 Hok).
Qed.

End ReachabilitySteps.

Section SequentialRuns.

(** A press that settles at once is a press and the settlements of the
    requests it awaits. *)
Lemma press_split (env : Env) (st : St) :
  async_run [a_click; a_settle 0 env; a_settle 0 env; a_settle 0 env] (st, [])
  = (step (click env) st, []).
Proof.
  unfold async_run, fold_left, async_step, step. cbn [act]. unfold press.
  unfold bind at 1. unfold get. cbn.
  destruct (button_disabled (render st)); [reflexivity |].
  destruct (isRecording (react st)) eqn:Hrec.
  - rewrite (startConversion_toggles st env Hrec).
    pose proof (stopRecording_never_returns true st) as Hnr.
    unfold press_begin, toggle, render. cbn [r_isRecording]. rewrite Hrec.
    revert Hnr. unfold_ops.
    destruct (stopRecording true st) as [[[[] | | e] st1] tr1]; cbn; intros Hnr;
      try reflexivity; congruence.
  - destruct st as [[? ? ? ? m yt file] [? ? ? ? ? ?] [? ? ? ? ? ? ?]].
    destruct env as [acq dec conn wk]. cbn in Hrec. subst.
    unfold startConversion, press_begin, press_settle, resume, to_wake_lock, toggle,
      acquire_source, run_session, on_start_failure, render.
    cbn [r_isRecording r_sourceMode r_youtubeId r_selectedFile p_render p_audioCtx p_await
         react isRecording sourceMode youtubeId selectedFile acquired decoded wake
         connect_fulfils].
    destruct m, yt, file, acq as [a | e], dec, wk; exec; fresh_lookups; try reflexivity.
Qed.

Lemma run_async (l : list Action) (st : St) :
  async_run (flat_map asynchronous l) (st, []) = (run l st, []).
Proof.
  revert st. induction l as [| a l IH]; intros st; [reflexivity |].
  cbn [flat_map]. unfold async_run. rewrite fold_left_app.
  fold (async_run (asynchronous a) (st, [])).
  fold (async_run (flat_map asynchronous l) (async_run (asynchronous a) (st, []))).
  assert (Ha : async_run (asynchronous a) (st, []) = (step a st, [])).
  { destruct a as [e | env]; [reflexivity | apply press_split]. }
  rewrite Ha, IH. reflexivity.
Qed.

Lemma sequential_reachable (st : St) : sequential st -> reachable st.
Proof.
  intros [l ->]. exists (flat_map asynchronous l), []. apply run_async.
Qed.

(** In every reachable state the close callback of a session runs an idle
    render's [stopRecording]: it releases nothing and leaves the React
    state and the refs as they are. *)
Lemma close_callback_is_idle (st : St) (k : nat) :
  reachable st ->
  log_of (handle (ev_close k) st) = []
  /\ react (state_of (handle (ev_close k) st)) = react st
  /\ refs (state_of (handle (ev_close k) st)) = refs st.
Proof.
  intros Hreach. destruct (reachable_well_formed st Hreach) as [_ [Hsess _]].
  cbn [handle]. unfold bind at 1. unfold get. cbn.
  destruct (sessions (world st) !! k) as [s |] eqn:Hk; cbn; [| auto].
  unfold onclose. rewrite (Hsess k s Hk). cbn. auto.
Qed.

End SequentialRuns.

Section Remarks.

(** A tab share that delivers no audio track makes the start fail after
    the stream was attached and the session opened: the alert is raised
    and the component stays Idle, with the stream still attached and the
    session still referenced. *)
Lemma tab_share_without_audio :
  let st := run [event (ev_mode youtube); event (ev_youtube (Some "dQw4w9WgXcQ"%string))] initial in
  let r := startConversion (render st) (mkEnv (Fulfilled false) None true wl_granted) st in
  In (alert msg_cannot_start) (log_of r)
  /\ isRecording (react (state_of r)) = false
  /\ stream (react (state_of r)) = Some 0%nat
  /\ sessionPromiseRef (refs (state_of r)) = Some 0%nat.
Proof. cbv zeta. repeat split; vm_compute; tauto. Qed.

(** The file-source ref is never cleared: the stop of a later microphone
    session stops the file source of an earlier session once more. *)
Lemma stale_file_source_is_stopped_again :
  let st := run [event (ev_mode audio); event (ev_file "lecture.mp3"%string); click granted;
                 click granted; event (ev_mode mic); click granted] initial in
  isRecording (react st) = true
  /\ sourceMode (react st) = mic
  /\ In (BufferSource_stop 0) (log_of (stopRecording true st)).
Proof. cbv zeta. repeat split; vm_compute; tauto. Qed.

(** A stop requested while the wake-lock request of the start is still
    pending finds neither a lock nor a timer to release.  When the request
    is then granted the start stores the lock and arms its interval: the
    component is Idle with the wake lock held and the seconds counting. *)
Lemma stop_before_wake_lock_settles :
  let cfg := async_run [a_click; a_settle 0 granted; a_click; a_settle 0 granted;
                        a_event (ev_interval 0)] (initial, []) in
  reachable (fst cfg)
  /\ snd cfg = []
  /\ isRecording (react (fst cfg)) = false
  /\ wakeLockRef (refs (fst cfg)) = Some 0%nat
  /\ wakeLocks (world (fst cfg)) = [true]
  /\ timerRef (refs (fst cfg)) = Some 0%nat
  /\ timers (world (fst cfg)) = [true]
  /\ recordingTime (react (fst cfg)) = 1.
Proof.
  cbv zeta. split.
  - exists [a_click; a_settle 0 granted; a_click; a_settle 0 granted; a_event (ev_interval 0)], [].
    vm_compute. reflexivity.
  - repeat match goal with |- _ /\ _ => split end; vm_compute; reflexivity.
Qed.

(** A mode tab pressed while a tab share is awaited leaves the component,
    once the share is granted, Recording in a mode whose button is
    disabled: no press can stop that recording. *)
Lemma recording_with_button_disabled :
  let cfg := async_run [a_event (ev_mode youtube);
                        a_event (ev_youtube (Some "dQw4w9WgXcQ"%string));
                        a_click; a_event (ev_mode audio);
                        a_settle 0 granted; a_settle 0 granted] (initial, []) in
  reachable (fst cfg)
  /\ isRecording (react (fst cfg)) = true
  /\ button_disabled (render (fst cfg)) = true
  /\ async_step a_click cfg = cfg.
Proof.
  cbv zeta. split.
  - exists [a_event (ev_mode youtube); a_event (ev_youtube (Some "dQw4w9WgXcQ"%string));
            a_click; a_event (ev_mode audio); a_settle 0 granted; a_settle 0 granted], [].
    vm_compute. reflexivity.
  - repeat match goal with |- _ /\ _ => split end; vm_compute; reflexivity.
Qed.

End Remarks.

(** ** Further properties of the handlers *)

Section CallbackFacts.

Lemma mic_recording_reachable : reachable mic_recording.
Proof. apply sequential_reachable. exists [click granted]. reflexivity. Qed.

Lemma file_recording_reachable : reachable file_recording.
Proof.
  apply sequential_reachable.
  exists [event (ev_mode audio); event (ev_file "lecture.mp3"); click granted]. reflexivity.
Qed.

(** X1.  In every reachable state no callback ends a recording: whatever
    event arrives (a close or an error of a session, the end of the file
    source, the unmount, a tick, a form input), its handler releases
    nothing and leaves [isRecording] and every ref unchanged.  The
    [stopRecording] that [onclose], [onended] and the unmount cleanup call
    is the one of an idle render. *)
Theorem callbacks_never_stop (st : St) (e : Event) :
  reachable st ->
  let r := handle e st in
  isRecording (react (state_of r)) = isRecording (react st)
  /\ refs (state_of r) = refs st
  /\ releases (log_of r) = [].
Proof.
  intros Hreach. destruct (reachable_well_formed st Hreach) as [_ [Hsess Hnode]].
  destruct e as [message | k | k | c inputData | n | t | | m | f | id]; cbn [handle].
  - unfold onmessage. exec; auto.
  - cbn. auto.
  - unfold bind at 1. unfold get. cbn.
    destruct (sessions (world st) !! k) as [s |] eqn:Hk; cbn; [| auto].
    unfold onclose. rewrite (Hsess k s Hk). cbn. auto.
  - unfold onaudioprocess. exec; auto.
  - unfold bind at 1. unfold get. cbn.
    destruct (nodes (world st) !! n) as [nd |] eqn:Hn; cbn; [| auto].
    destruct (node_started nd); cbn; [| auto].
    unfold onended. rewrite (Hnode n nd Hn). cbn. auto.
  - unfold ontick. exec; auto.
  - cbn. auto.
  - exec; auto.
  - cbn. auto.
  - destruct id; cbn; auto.
Qed.

(** The end of the file of a file recording leaves it Recording. *)
Lemma callbacks_never_stop_witness :
  isRecording (react (state_of (handle (ev_ended 0) file_recording))) = true.
Proof.
  exact (proj1 (callbacks_never_stop file_recording (ev_ended 0) file_recording_reachable)).
Defined.

End CallbackFacts.

Section StartSuccess.

(** X2.  A start that ends in Recording holds one fresh object of each
    kind it needs: an open audio context with its tap connected, a
    session whose callbacks belong to the starting render, and an active
    timer, each referenced by its ref, with the elapsed time and the
    transcript reset.  In the capture modes it also holds a live stream
    shown in the UI and a recording [MediaRecorder], and creates no file
    source; in the file modes it holds a started file source, shows no
    stream and creates no recorder, so the recorder ref keeps what an
    earlier session left there. *)
Theorem start_acquires_by_mode (st : St) (env : Env) :
  isRecording (react st) = false ->
  let st1 := state_of (startConversion (render st) env st) in
  isRecording (react st1) = true ->
  (recordingTime (react st1) = 0
   /\ transcribedText (react st1) = EmptyString
   /\ audioCtxRef (refs st1) = Some (length (contexts (world st)))
   /\ contexts (world st1) = contexts (world st) ++ [mkCtx false true]
   /\ sessionPromiseRef (refs st1) = Some (length (sessions (world st)))
   /\ sessions (world st1)
      = sessions (world st) ++ [mkSession (render st) (connect_fulfils env) false]
   /\ timerRef (refs st1) = Some (length (timers (world st)))
   /\ timers (world st1) = timers (world st) ++ [true])
  /\ match sourceMode (react st) with
     | mic | youtube =>
         stream (react st1) = Some (length (streams (world st)))
         /\ streams (world st1) = streams (world st) ++ [mkStream true true]
         /\ mediaRecorderRef (refs st1) = Some (length (recorders (world st)))
         /\ recorders (world st1) = recorders (world st) ++ [recording]
         /\ fileAudioSourceRef (refs st1) = fileAudioSourceRef (refs st)
         /\ nodes (world st1) = nodes (world st)
     | audio | video =>
         stream (react st1) = None
         /\ streams (world st1) = streams (world st)
         /\ fileAudioSourceRef (refs st1) = Some (length (nodes (world st)))
         /\ nodes (world st1) = nodes (world st) ++ [mkNode true false (render st)]
         /\ mediaRecorderRef (refs st1) = mediaRecorderRef (refs st)
         /\ recorders (world st1) = recorders (world st)
     end.
Proof.
  intros Hidle.
  destruct st as [[? ? ? ? m yt file] [? ? ? ? ? ?] [? ? ? ? ? ? ?]].
  cbn in Hidle. subst.
  unfold startConversion, toggle, acquire_source, run_session, on_start_failure, render.
  cbn [r_isRecording r_sourceMode r_youtubeId r_selectedFile react isRecording sourceMode
       youtubeId selectedFile].
  destruct m; exec; fresh_lookups; intros Hrec; try discriminate.
  all: cbn in *; subst.
  all: rewrite ?alter_snoc, ?insert_snoc; cbn; repeat split; reflexivity.
Qed.

(** A file start creates a started file source and no recorder. *)
Lemma start_acquires_by_mode_witness :
  fileAudioSourceRef (refs file_recording) = Some 0%nat
  /\ mediaRecorderRef (refs file_recording) = None.
Proof.
  pose proof (start_acquires_by_mode
                (run [event (ev_mode audio); event (ev_file "lecture.mp3")] initial)
                granted eq_refl eq_refl) as H.
  destruct H as [_ H]. cbn in H. destruct H as [_ [_ [Hf [_ [Hm _]]]]].
  split; [exact Hf | exact Hm].
Defined.

End StartSuccess.

Section ElapsedTime.

Lemma source_started_extend (st st' : St) :
  ((nodes (world st') = nodes (world st)
    /\ fileAudioSourceRef (refs st') = fileAudioSourceRef (refs st))
   \/ exists nd, nodes (world st') = nodes (world st) ++ [nd]
                 /\ node_started nd = true
                 /\ fileAudioSourceRef (refs st') = Some (length (nodes (world st)))) ->
  source_started st -> source_started st'.
Proof.
  intros Hn Hsrc j Hj. destruct Hn as [[Hn Hf] | [nd [Hn [Hst Hf]]]]; rewrite Hn.
  - apply Hsrc. congruence.
  - rewrite Hf in Hj. injection Hj as <-. exists nd. split; [apply lookup_snoc | exact Hst].
Qed.

Lemma startConversion_source_started (st : St) (env : Env) :
  isRecording (react st) = false ->
  source_started st -> source_started (state_of (startConversion (render st) env st)).
Proof.
  intros Hidle. apply source_started_extend.
  exec_start Hidle; fresh_lookups; rewrite ?alter_snoc.
  all: first [ left; split; reflexivity
             | right; eexists; split; [reflexivity |]; split; reflexivity ].
Qed.

Lemma startConversion_timer (st : St) (env : Env) :
  isRecording (react st) = false ->
  let st1 := state_of (startConversion (render st) env st) in
  isRecording (react st1) = true ->
  recordingTime (react st1) = 0
  /\ timerRef (refs st1) = Some (length (timers (world st)))
  /\ timers (world st1) !! length (timers (world st)) = Some true.
Proof.
  intros Hidle.
  exec_start Hidle; fresh_lookups; intros Hrec; try discriminate; try congruence.
  all: repeat split; try reflexivity; apply lookup_snoc.
Qed.

Lemma run_cons (a : Action) (l : list Action) (st : St) :
  run (a :: l) st = run l (step a st).
Proof. reflexivity. Qed.

(** What a run of interval ticks does while the timer is active. *)
Lemma ticks_count (t : nat) (n : nat) (st : St) :
  timers (world st) !! t = Some true ->
  let st' := run (repeat (event (ev_interval t)) n) st in
  recordingTime (react st') = recordingTime (react st) + Z.of_nat n
  /\ isRecording (react st') = isRecording (react st)
  /\ refs st' = refs st
  /\ world st' = world st.
Proof.
  revert st. induction n as [| n IH]; intros st Ht.
  - cbn. repeat split; lia.
  - cbn [repeat]. cbv zeta. rewrite run_cons.
    assert (Hs : step (event (ev_interval t)) st
                 = on_react (fun s => with_recordingTime (recordingTime s + 1) s) st).
    { unfold step. cbn [act handle]. unfold_ops. cbn. rewrite Ht. reflexivity. }
    rewrite Hs. destruct (IH (on_react (fun s => with_recordingTime (recordingTime s + 1) s) st) Ht)
      as [Hr [Hi [Hf Hw]]].
    rewrite Hr, Hi, Hf, Hw. cbn. repeat split; lia.
Qed.

(** A cleared timer no longer ticks. *)
Lemma ticks_cleared (t : nat) (n : nat) (st : St) :
  timers (world st) !! t = Some false ->
  run (repeat (event (ev_interval t)) n) st = st.
Proof.
  intros Ht. induction n as [| n IH]; [reflexivity |].
  cbn [repeat]. rewrite run_cons.
  assert (Hs : step (event (ev_interval t)) st = st).
  { unfold step. cbn [act handle]. unfold_ops. cbn. rewrite Ht. reflexivity. }
  rewrite Hs. exact IH.
Qed.

Lemma stopRecording_recordingTime (b : bool) (st : St) :
  recordingTime (react (state_of (stopRecording b st))) = recordingTime (react st).
Proof. destruct b; [| reflexivity]. unfold stopRecording. exec; reflexivity. Qed.

(** X3.  After a start that ends in Recording the elapsed time is [0] and
    each tick of the session's interval adds one second, so [n] ticks show
    [n].  The stop clears that interval: the time it leaves is the time
    at the stop, and later ticks of the interval change nothing. *)
Theorem elapsed_time_counts_and_freezes (st : St) (env : Env) (n m : nat) :
  isRecording (react st) = false ->
  source_started st ->
  let st1 := state_of (startConversion (render st) env st) in
  isRecording (react st1) = true ->
  let t := length (timers (world st)) in
  let st2 := run (repeat (event (ev_interval t)) n) st1 in
  let st3 := state_of (stopRecording true st2) in
  recordingTime (react st1) = 0
  /\ recordingTime (react st2) = Z.of_nat n
  /\ recordingTime (react st3) = Z.of_nat n
  /\ run (repeat (event (ev_interval t)) m) st3 = st3.
Proof.
  intros Hidle Hsrc st1 Hrec t st2 st3.
  destruct (startConversion_timer st env Hidle Hrec) as [H0 [Href Ht]].
  fold st1 t in H0, Href, Ht.
  destruct (ticks_count t n st1 Ht) as [Hn [_ [Hrefs Hworld]]]. fold st2 in Hn, Hrefs, Hworld.
  assert (Hsrc1 : source_started st1) by (apply startConversion_source_started; assumption).
  assert (Hsrc2 : source_started st2).
  { intros j Hj. rewrite Hworld. apply Hsrc1. rewrite <- Hrefs. exact Hj. }
  assert (Hdone : completion_of (stopRecording true st2) = Normal tt)
    by (apply stopRecording_completes, Hsrc2).
  assert (Hn3 : recordingTime (react st3) = Z.of_nat n).
  { unfold st3. rewrite stopRecording_recordingTime, Hn, H0. lia. }
  repeat split; try assumption; [lia |].
  apply ticks_cleared.
  destruct (stopRecording_world st2 Hdone) as [_ [Htimer _]].
  apply (Htimer t true); [rewrite Hrefs; exact Href | rewrite Hworld; exact Ht].
Qed.

(** Three seconds of a microphone recording, then a stop and two late
    ticks. *)
Lemma elapsed_time_counts_and_freezes_witness :
  let st2 := run (repeat (event (ev_interval 0)) 3) mic_recording in
  recordingTime (react st2) = 3
  /\ recordingTime
       (react (run (repeat (event (ev_interval 0)) 2) (state_of (stopRecording true st2)))) = 3.
Proof.
  pose proof (elapsed_time_counts_and_freezes initial granted 3 2 eq_refl) as H.
  assert (Hs : source_started initial) by (intros j Hj; discriminate).
  specialize (H Hs eq_refl). cbv zeta in H. destruct H as [_ [H2 [H3 H4]]].
  cbv zeta. split; [exact H2 |].
  exact (eq_trans (f_equal (fun s => recordingTime (react s)) H4) H3).
Defined.

End ElapsedTime.

Section Frames.


End Frames.

Section StartEdges.

(** X5.  The wake lock is best effort: whether the API is missing, the
    request is refused or the lock is granted, a start ends the same way,
    with the same React state, the same refs apart from the wake-lock ref
    and the same platform objects apart from the lock itself. *)
Theorem wake_lock_is_best_effort (st : St) (acq : Settled) (dec : option Exn) (conn : bool)
    (w : WakeLockOutcome) :
  let with_lock := startConversion (render st) (mkEnv acq dec conn w) st in
  let without := startConversion (render st) (mkEnv acq dec conn wl_unsupported) st in
  completion_of with_lock = completion_of without
  /\ react (state_of with_lock) = react (state_of without)
  /\ with_wakeLockRef (wakeLockRef (refs (state_of without))) (refs (state_of with_lock))
     = refs (state_of without)
  /\ with_wakeLocks (wakeLocks (world (state_of without))) (world (state_of with_lock))
     = world (state_of without).
Proof.
  destruct (isRecording (react st)) eqn:Hrec.
  - rewrite !(startConversion_toggles st _ Hrec). cbv zeta.
    destruct (state_of (stopRecording true st)) as [s [? ? ? ? ? ?] [? ? ? ? ? ? ?]].
    repeat split; reflexivity.
  - destruct st as [[? ? ? ? ? ? ?] [? ? ? ? ? ?] [? ? ? ? ? ? ?]]. cbn in Hrec. subst.
    unfold startConversion, toggle, acquire_source, run_session, on_start_failure, render.
    cbn [r_isRecording r_sourceMode r_youtubeId r_selectedFile react isRecording sourceMode
         youtubeId selectedFile acquired connect_fulfils wake].
    destruct w; exec; repeat split; reflexivity.
Qed.

Lemma press_log (env : Env) (st : St) :
  log_of (press env st)
  = if button_disabled (render st) then [] else log_of (startConversion (render st) env st).
Proof.
  unfold press. unfold bind at 1. unfold get. cbn.
  destruct (button_disabled (render st)); [reflexivity |].
  destruct (startConversion (render st) env st) as [[c s] l]. reflexivity.
Qed.

(** X6.  The alerts of the two precondition guards of [startConversion]
    cannot be raised by the conversion button: the button is disabled in
    every state in which a guard would fire, so a press never shows
    "select a file first" or "load a video first". *)
Theorem precondition_alerts_unreachable (st : St) (env : Env) :
  ~ In (alert msg_select_file_first) (log_of (press env st))
  /\ ~ In (alert msg_load_video_first) (log_of (press env st)).
Proof.
  rewrite press_log.
  destruct (button_disabled (render st)) eqn:Hb; [cbn; tauto |].
  destruct (isRecording (react st)) eqn:Hrec.
  - rewrite (startConversion_toggles st env Hrec).
    pose proof (stopRecording_opens_nothing true st) as H.
    destruct (stopRecording true st) as [[c s] l]. cbn in *.
    rewrite List.Forall_forall in H.
    split; intros Hin; apply H in Hin; discriminate.
  - unfold button_disabled, render in Hb. cbn in Hb. revert Hb.
    exec_start Hrec; intros Hb; try discriminate; fresh_lookups; try discriminate.
    all: split; cbn; intros Hin;
      repeat (destruct Hin as [Hin | Hin]; [discriminate |]); exact Hin.
Qed.

End StartEdges.

Section StateFrames.

Lemma step_click (env : Env) (st : St) :
  step (click env) st
  = if button_disabled (render st) then st
    else state_of (startConversion (render st) env st).
Proof.
  unfold step. cbn [act]. unfold press. unfold bind at 1. unfold get. cbn.
  destruct (button_disabled (render st)); [reflexivity |].
  destruct (startConversion (render st) env st) as [[c s] l]. reflexivity.
Qed.

Lemma stopRecording_form_state (b : bool) (st : St) :
  let st' := state_of (stopRecording b st) in
  transcribedText (react st') = transcribedText (react st)
  /\ recordingTime (react st') = recordingTime (react st)
  /\ sourceMode (react st') = sourceMode (react st)
  /\ youtubeId (react st') = youtubeId (react st)
  /\ selectedFile (react st') = selectedFile (react st).
Proof. destruct b; [| cbn; auto]. unfold stopRecording. exec; auto. Qed.

Lemma invoke_stop_state (b : bool) (st : St) :
  state_of (invoke (stopRecording b) st) = state_of (stopRecording b st).
Proof. unfold invoke, state_of. destruct (stopRecording b st) as [[[] ?] ?]; reflexivity. Qed.

Lemma startConversion_sourceMode (st : St) (env : Env) :
  sourceMode (react (state_of (startConversion (render st) env st))) = sourceMode (react st).
Proof.
  destruct (isRecording (react st)) eqn:Hrec.
  - rewrite (startConversion_toggles st env Hrec). apply stopRecording_form_state.
  - exec_start Hrec; congruence.
Qed.

(** X7.  The source mode changes only through a mode tab, and only while
    Idle: no other event and no press of the conversion button changes
    it, and a mode tab pressed during a recording does nothing. *)
Theorem source_mode_changes_only_when_idle (a : Action) (st : St) :
  sourceMode (react (step a st)) <> sourceMode (react st) ->
  isRecording (react st) = false /\ exists m, a = event (ev_mode m).
Proof.
  intros Hne. destruct a as [e | env].
  - unfold step in Hne. cbn [act] in Hne.
    destruct e as [message | k | k | c inputData | n | t | | m | f | id]; cbn [handle] in Hne.
    + exfalso. apply Hne. unfold onmessage. exec; reflexivity.
    + exfalso. apply Hne. reflexivity.
    + exfalso. apply Hne. unfold bind at 1. unfold get. cbn.
      destruct (sessions (world st) !! k) as [s |]; cbn; [| reflexivity].
      unfold bind, update. cbn [fst snd]. unfold onclose.
      match goal with |- context [invoke (stopRecording ?b) ?s0] =>
        pose proof (invoke_stop_state b s0) as Hi;
        pose proof (proj1 (proj2 (proj2 (stopRecording_form_state b s0)))) as Hs
      end.
      unfold state_of in *. destruct (invoke _ _) as [[? ?] ?]. cbn in *. congruence.
    + exfalso. apply Hne. unfold onaudioprocess. exec; reflexivity.
    + exfalso. apply Hne. unfold bind at 1. unfold get. cbn.
      destruct (nodes (world st) !! n) as [nd |]; cbn; [| reflexivity].
      destruct (node_started nd); cbn; [| reflexivity].
      unfold onended.
      pose proof (invoke_stop_state (r_isRecording (node_closure nd)) st) as Hi.
      pose proof (proj1 (proj2 (proj2
        (stopRecording_form_state (r_isRecording (node_closure nd)) st)))) as Hs.
      unfold state_of in *. destruct (invoke _ _) as [[? ?] ?]. cbn in *. congruence.
    + exfalso. apply Hne. unfold ontick. exec; reflexivity.
    + exfalso. apply Hne. reflexivity.
    + destruct (isRecording (react st)) eqn:Hrec.
      * exfalso. apply Hne. unfold_ops. cbn. rewrite Hrec. reflexivity.
      * split; [reflexivity | exists m; reflexivity].
    + exfalso. apply Hne. reflexivity.
    + exfalso. apply Hne. destruct id; reflexivity.
  - exfalso. apply Hne. rewrite step_click.
    destruct (button_disabled (render st)); [reflexivity | apply startConversion_sourceMode].
Qed.

(** The mode tab pressed at the initial state. *)
Lemma source_mode_changes_only_when_idle_witness :
  isRecording (react initial) = false /\ exists m, event (ev_mode audio) = event (ev_mode m).
Proof.
  apply (source_mode_changes_only_when_idle (event (ev_mode audio)) initial).
  vm_compute. discriminate.
Defined.

(** X8.  The transcript only grows, by what an event contributes, or is
    emptied by a start: an event appends its fragment text (nothing, for
    an event that is no fragment) and a press of the button either leaves
    the transcript as it is or, when it starts from Idle, empties it. *)
Theorem transcript_grows_or_restarts (a : Action) (st : St) :
  let old := transcribedText (react st) in
  let new := transcribedText (react (step a st)) in
  match a with
  | event e => new = String.append old (contribution e)
  | click env => new = old \/ (new = EmptyString /\ isRecording (react st) = false)
  end.
Proof.
  destruct a as [e | env]; cbv zeta.
  - unfold step. cbn [act]. apply handle_transcribedText.
  - rewrite step_click. destruct (button_disabled (render st)); [left; reflexivity |].
    destruct (isRecording (react st)) eqn:Hrec.
    + left. rewrite (startConversion_toggles st env Hrec). apply stopRecording_form_state.
    + exec_start Hrec; first [left; reflexivity | right; split; reflexivity].
Qed.

(** X9.  The stop procedure keeps what is exported after a recording and
    what it has no call for: the transcript, the elapsed time, the source
    mode, the loaded video id and the selected file are unchanged, every
    session is left as it was (none is closed), and the recorder and
    file-source refs are not cleared. *)
Theorem stop_keeps_transcript_and_sessions (b : bool) (st : St) :
  let st' := state_of (stopRecording b st) in
  (transcribedText (react st') = transcribedText (react st)
   /\ recordingTime (react st') = recordingTime (react st)
   /\ sourceMode (react st') = sourceMode (react st)
   /\ youtubeId (react st') = youtubeId (react st)
   /\ selectedFile (react st') = selectedFile (react st))
  /\ sessions (world st') = sessions (world st)
  /\ mediaRecorderRef (refs st') = mediaRecorderRef (refs st)
  /\ fileAudioSourceRef (refs st') = fileAudioSourceRef (refs st).
Proof.
  split; [apply stopRecording_form_state |].
  destruct b; [| cbn; auto]. unfold stopRecording. exec; auto.
Qed.

(** X10.  A tab share that delivers no audio track fails the start
    half-way: the error is logged, the alert is raised and the component
    stays Idle with no recorder and no timer, but the transcript has been
    emptied, the silent stream is shown in the UI with its tracks live,
    the session has been opened and is referenced, and the audio context
    is left open. *)
Theorem silent_tab_share_fails_half_started (st : St) (env : Env) (id : string) :
  isRecording (react st) = false ->
  sourceMode (react st) = youtube ->
  youtubeId (react st) = Some id ->
  acquired env = Fulfilled false ->
  let r := startConversion (render st) env st in
  let st' := state_of r in
  completion_of r = Normal tt
  /\ In console_error (log_of r)
  /\ In (alert msg_cannot_start) (log_of r)
  /\ isRecording (react st') = false
  /\ transcribedText (react st') = EmptyString
  /\ stream (react st') = Some (length (streams (world st)))
  /\ streams (world st') = streams (world st) ++ [mkStream true false]
  /\ sessionPromiseRef (refs st') = Some (length (sessions (world st)))
  /\ sessions (world st')
     = sessions (world st) ++ [mkSession (render st) (connect_fulfils env) false]
  /\ contexts (world st') = contexts (world st) ++ [mkCtx false false]
  /\ mediaRecorderRef (refs st') = mediaRecorderRef (refs st)
  /\ timerRef (refs st') = timerRef (refs st).
Proof.
  intros Hidle Hmode Hid Hacq.
  destruct st as [[? ? ? ? ? ? ?] [? ? ? ? ? ?] [? ? ? ? ? ? ?]].
  destruct env as [acq dec conn w]. cbn in Hidle, Hmode, Hid, Hacq. subst.
  unfold startConversion, toggle, acquire_source, run_session, on_start_failure, render.
  exec; fresh_lookups; try discriminate.
  all: repeat split; cbn; tauto.
Qed.

(** A loaded video shared without its audio. *)
Lemma silent_tab_share_fails_half_started_witness :
  let st := run [event (ev_mode youtube); event (ev_youtube (Some "dQw4w9WgXcQ"%string))] initial in
  let st' := state_of (startConversion (render st) (mkEnv (Fulfilled false) None true wl_granted) st) in
  isRecording (react st') = false /\ sessionPromiseRef (refs st') = Some 0%nat.
Proof.
  pose proof (silent_tab_share_fails_half_started
    (run [event (ev_mode youtube); event (ev_youtube (Some "dQw4w9WgXcQ"%string))] initial)
    (mkEnv (Fulfilled false) None true wl_granted) "dQw4w9WgXcQ"%string
    eq_refl eq_refl eq_refl eq_refl) as H.
  cbv zeta in H. destruct H as [_ [_ [_ [Hi [_ [_ [_ [Hs _]]]]]]]].
  cbv zeta. split; [exact Hi | exact Hs].
Defined.

End StateFrames.

(** ** The frame on the receiving side *)

Section EncoderRoundTrip.
Import Pcm Wire.

(** Case analysis on a small number by enumeration. *)
Lemma for_all_below (n : nat) (P : Z -> bool) :
  forallb P (map Z.of_nat (seq 0 n)) = true ->
  forall x, 0 <= x < Z.of_nat n -> P x = true.
Proof.
  intros H x Hx. rewrite forallb_forall in H. apply H.
  apply in_map_iff. exists (Z.to_nat x). split; [lia |]. apply in_seq. lia.
Qed.

Lemma for_all_bytes (P : Z -> bool) :
  forallb P all_bytes = true -> forall b, is_byte b -> P b = true.
Proof. intros H b Hb. apply (for_all_below 256 P H). exact Hb. Qed.

(** Case analysis on a number below [n] and a byte. *)
Lemma for_all_below_and_bytes (n : nat) (P : Z -> Z -> bool) :
  forallb (fun p => forallb (P p) all_bytes) (map Z.of_nat (seq 0 n)) = true ->
  forall p b, 0 <= p < Z.of_nat n -> is_byte b -> P p b = true.
Proof.
  intros H p b Hp Hb.
  apply (for_all_bytes (P p)); [| exact Hb].
  apply (for_all_below n (fun p => forallb (P p) all_bytes)); assumption.
Qed.

Lemma digit_spec (n : Z) :
  digit_ok n = true ->
  exists c, digit n = String c EmptyString /\ is_pad c = false /\ digit_value c = Some n.
Proof.
  unfold digit_ok. destruct (digit n) as [| c [| ? ?]]; try discriminate.
  intros H. apply andb_true_iff in H as [Hp Hv]. exists c.
  split; [reflexivity |]. split; [destruct (is_pad c); [discriminate | reflexivity] |].
  destruct (digit_value c) as [v |]; [| discriminate].
  apply Z.eqb_eq in Hv. congruence.
Qed.

Lemma digits_of_one (a : Z) :
  is_byte a ->
  digit_ok (Z.shiftr a 2) && digit_ok (Z.shiftl (Z.land a 3) 4)
  && (Z.lor (Z.shiftl (Z.shiftr a 2) 2) (Z.shiftr (Z.shiftl (Z.land a 3) 4) 4) =? a) = true.
Proof. revert a. apply for_all_bytes. vm_compute. reflexivity. Qed.

(** The low bits of a byte are a small number. *)
Lemma low_two_bits (a : Z) :
  is_byte a ->
  0 <= Z.land a 3 < 4 /\ Z.lor (Z.shiftl (Z.shiftr a 2) 2) (Z.land a 3) = a.
Proof.
  intros Ha.
  assert (H : (0 <=? Z.land a 3) && (Z.land a 3 <? 4)
              && (Z.lor (Z.shiftl (Z.shiftr a 2) 2) (Z.land a 3) =? a) = true)
    by (revert a Ha; apply for_all_bytes; vm_compute; reflexivity).
  apply andb_true_iff in H as [H H3]. apply andb_true_iff in H as [H1 H2].
  apply Z.leb_le in H1. apply Z.ltb_lt in H2. apply Z.eqb_eq in H3. auto.
Qed.

Lemma low_four_bits (b : Z) : is_byte b -> 0 <= Z.land b 15 < 16.
Proof.
  intros Hb.
  assert (H : (0 <=? Z.land b 15) && (Z.land b 15 <? 16) = true)
    by (revert b Hb; apply for_all_bytes; vm_compute; reflexivity).
  apply andb_true_iff in H as [H1 H2]. apply Z.leb_le in H1. apply Z.ltb_lt in H2. auto.
Qed.

(** The second and third digit of a group, from the low bits [p] of its
    first byte and its second byte. *)
Lemma digits_of_low_bits (p b : Z) :
  0 <= p < 4 -> is_byte b ->
  digit_ok (Z.lor (Z.shiftl p 4) (Z.shiftr b 4))
  && digit_ok (Z.shiftl (Z.land b 15) 2)
  && (Z.shiftr (Z.lor (Z.shiftl p 4) (Z.shiftr b 4)) 4 =? p)
  && (Z.lor (Z.shiftl (Z.land (Z.lor (Z.shiftl p 4) (Z.shiftr b 4)) 15) 4)
            (Z.shiftr (Z.shiftl (Z.land b 15) 2) 2) =? b)
  && (Z.lor (Z.shiftl (Z.land (Z.lor (Z.shiftl p 4) (Z.shiftr b 4)) 15) 4) (Z.land b 15)
      =? b) = true.
Proof. revert p b. apply (for_all_below_and_bytes 4). vm_compute. reflexivity. Qed.

(** The third and fourth digit of a group, from the low bits [q] of its
    second byte and its third byte. *)
Lemma digits_of_middle_bits (q c : Z) :
  0 <= q < 16 -> is_byte c ->
  digit_ok (Z.lor (Z.shiftl q 2) (Z.shiftr c 6))
  && digit_ok (Z.land c 63)
  && (Z.shiftr (Z.lor (Z.shiftl q 2) (Z.shiftr c 6)) 2 =? q)
  && (Z.lor (Z.shiftl (Z.land (Z.lor (Z.shiftl q 2) (Z.shiftr c 6)) 3) 6)
            (Z.land c 63) =? c) = true.
Proof. revert q c. apply (for_all_below_and_bytes 16). vm_compute. reflexivity. Qed.

Lemma digits_of_two (a b : Z) :
  is_byte a -> is_byte b ->
  digit_ok (Z.lor (Z.shiftl (Z.land a 3) 4) (Z.shiftr b 4))
  && digit_ok (Z.shiftl (Z.land b 15) 2)
  && (Z.lor (Z.shiftl (Z.shiftr a 2) 2)
            (Z.shiftr (Z.lor (Z.shiftl (Z.land a 3) 4) (Z.shiftr b 4)) 4) =? a)
  && (Z.lor (Z.shiftl (Z.land (Z.lor (Z.shiftl (Z.land a 3) 4) (Z.shiftr b 4)) 15) 4)
            (Z.shiftr (Z.shiftl (Z.land b 15) 2) 2) =? b) = true.
Proof.
  intros Ha Hb. destruct (low_two_bits a Ha) as [Hp Hjoin].
  pose proof (digits_of_low_bits (Z.land a 3) b Hp Hb) as H.
  apply andb_true_iff in H as [H _]. apply andb_true_iff in H as [H H4].
  apply andb_true_iff in H as [H H3]. apply andb_true_iff in H as [H1 H2].
  apply Z.eqb_eq in H3. rewrite H1, H2, H4, H3, Hjoin, Z.eqb_refl. reflexivity.
Qed.

Lemma digits_of_three (b c : Z) :
  is_byte b -> is_byte c ->
  digit_ok (Z.lor (Z.shiftl (Z.land b 15) 2) (Z.shiftr c 6))
  && digit_ok (Z.land c 63)
  && (Z.shiftr (Z.lor (Z.shiftl (Z.land b 15) 2) (Z.shiftr c 6)) 2 =? Z.land b 15)
  && (Z.lor (Z.shiftl (Z.land (Z.lor (Z.shiftl (Z.land b 15) 2) (Z.shiftr c 6)) 3) 6)
            (Z.land c 63) =? c) = true.
Proof.
  intros Hb Hc. exact (digits_of_middle_bits (Z.land b 15) c (low_four_bits b Hb) Hc).
Qed.

Lemma middle_byte (a b : Z) :
  is_byte a -> is_byte b ->
  (Z.lor (Z.shiftl (Z.land (Z.lor (Z.shiftl (Z.land a 3) 4) (Z.shiftr b 4)) 15) 4) (Z.land b 15)
   =? b) = true.
Proof.
  intros Ha Hb. destruct (low_two_bits a Ha) as [Hp _].
  pose proof (digits_of_low_bits (Z.land a 3) b Hp Hb) as H.
  apply andb_true_iff in H as [_ H]. exact H.
Qed.

Lemma list_ind3 {A} (P : list A -> Prop) :
  P [] -> (forall a, P [a]) -> (forall a b, P [a; b]) ->
  (forall a b c l, P l -> P (a :: b :: c :: l)) ->
  forall l, P l.
Proof.
  intros H0 H1 H2 H3.
  assert (H : forall l, P l /\ (forall a, P (a :: l)) /\ (forall a b, P (a :: b :: l))).
  { induction l as [| x l [IH0 [IH1 IH2]]].
    - repeat split; auto.
    - repeat split; auto. }
  intros l. apply H.
Qed.

Lemma append_char (c : ascii) (s : string) :
  String.append (String c EmptyString) s = String c s.
Proof. reflexivity. Qed.

Ltac use_digit H :=
  let c := fresh "c" in let Hd := fresh "Hd" in
  let Hp := fresh "Hp" in let Hv := fresh "Hv" in
  apply digit_spec in H as [c [Hd [Hp Hv]]]; rewrite Hd, ?append_char.

Lemma btoa_codes_empty (l : list Z) :
  Forall is_byte l -> btoa_codes l = EmptyString -> l = [].
Proof.
  intros Hl H. destruct l as [| a l]; [reflexivity |]. exfalso.
  apply List.Forall_cons_iff in Hl as [Ha Hl].
  pose proof (digits_of_one a Ha) as H1.
  apply andb_true_iff in H1 as [H1 _]. apply andb_true_iff in H1 as [H1 _].
  apply digit_spec in H1 as [c [Hd _]].
  revert H. destruct l as [| b [| c0 l]]; cbn [btoa_codes]; rewrite Hd; discriminate.
Qed.

Lemma atob_group (c1 c2 c3 c4 : ascii) (rest : string) :
  rest <> EmptyString ->
  atob (String c1 (String c2 (String c3 (String c4 rest))))
  = match last_group c1 c2 c3 c4, is_pad c4, atob rest with
    | Some group, false, Some bytes => Some (group ++ bytes)
    | _, _, _ => None
    end.
Proof. intros H. destruct rest; [contradiction | reflexivity]. Qed.

(** [atob] undoes [btoa] on character codes. *)
Lemma atob_btoa_codes (l : list Z) : Forall is_byte l -> atob (btoa_codes l) = Some l.
Proof.
  induction l as [| a | a b | a b c l IH] using list_ind3; intros Hl.
  - reflexivity.
  - apply List.Forall_cons_iff in Hl as [Ha _].
    pose proof (digits_of_one a Ha) as H.
    apply andb_true_iff in H as [H H3]. apply andb_true_iff in H as [H1 H2].
    apply Z.eqb_eq in H3. cbn [btoa_codes].
    use_digit H1. use_digit H2. cbn [atob String.append]. unfold last_group.
    rewrite Hv, Hv0. change (is_pad "=") with true. cbv beta iota zeta.
    rewrite H3. reflexivity.
  - apply List.Forall_cons_iff in Hl as [Ha Hl]. apply List.Forall_cons_iff in Hl as [Hb _].
    pose proof (digits_of_one a Ha) as H.
    apply andb_true_iff in H as [H _]. apply andb_true_iff in H as [H1 _].
    pose proof (digits_of_two a b Ha Hb) as H.
    apply andb_true_iff in H as [H H5]. apply andb_true_iff in H as [H H4].
    apply andb_true_iff in H as [H2 H3].
    apply Z.eqb_eq in H4. apply Z.eqb_eq in H5. cbn [btoa_codes].
    use_digit H1. use_digit H2. use_digit H3. cbn [atob String.append]. unfold last_group.
    rewrite Hv, Hv0, Hp1, Hv1. change (is_pad "=") with true. cbv beta iota zeta.
    rewrite H4, H5. reflexivity.
  - apply List.Forall_cons_iff in Hl as [Ha Hl]. apply List.Forall_cons_iff in Hl as [Hb Hl].
    apply List.Forall_cons_iff in Hl as [Hc Hl].
    pose proof (digits_of_one a Ha) as H.
    apply andb_true_iff in H as [H _]. apply andb_true_iff in H as [H1 _].
    pose proof (digits_of_two a b Ha Hb) as H.
    apply andb_true_iff in H as [H _]. apply andb_true_iff in H as [H H5].
    apply andb_true_iff in H as [H2 _].
    pose proof (digits_of_three b c Hb Hc) as H.
    apply andb_true_iff in H as [H H8]. apply andb_true_iff in H as [H H7].
    apply andb_true_iff in H as [H3 H4].
    pose proof (middle_byte a b Ha Hb) as H6.
    apply Z.eqb_eq in H5. apply Z.eqb_eq in H6. apply Z.eqb_eq in H7. apply Z.eqb_eq in H8.
    cbn [btoa_codes].
    use_digit H1. use_digit H2. use_digit H3. use_digit H4.
    assert (Hg : last_group c0 c1 c2 c3 = Some [a; b; c]).
    { unfold last_group. rewrite Hv, Hv0, Hv1, Hv2, Hp2.
      cbv beta iota zeta. rewrite H5, H7, H6, H8. reflexivity. }
    destruct (btoa_codes l) as [| x s] eqn:E.
    + rewrite (btoa_codes_empty l Hl E). cbn [atob]. exact Hg.
    + rewrite atob_group by discriminate. rewrite Hg, Hp2, (IH Hl). reflexivity.
Qed.

Lemma chars_of_bytes (bytes : list Z) (acc : string) :
  fold_left (fun binary b => String.append binary (fromCharCode b)) bytes acc
  = String.append acc
      (string_of_list_ascii (map (fun b => ascii_of_N (Z.to_N b)) bytes)).
Proof.
  revert acc. induction bytes as [| b l IH]; intros acc; cbn [fold_left map string_of_list_ascii].
  - symmetry. apply append_empty_r.
  - rewrite IH. unfold fromCharCode. rewrite append_assoc. reflexivity.
Qed.

(** On bytes, [encode] is [btoa] of their codes. *)
Lemma encode_bytes (bytes : list Z) :
  Forall is_byte bytes -> encode bytes = btoa_codes bytes.
Proof.
  intros Hb. unfold encode, btoa. rewrite chars_of_bytes. cbn [String.append].
  rewrite list_ascii_of_string_of_list_ascii, map_map. f_equal.
  induction Hb as [| b l Hb _ IH]; [reflexivity |]. cbn [map]. rewrite IH. f_equal.
  rewrite N_ascii_embedding; [apply Z2N.id; apply Hb |].
  destruct Hb as [Hlo Hhi]. apply N2Z.inj_lt. rewrite Z2N.id by exact Hlo. exact Hhi.
Qed.

Lemma ToInt16_range (x : sample) : -32768 <= ToInt16 x <= 32767.
Proof.
  unfold ToInt16. cbv zeta.
  pose proof (Z.mod_pos_bound (truncate x) 65536 ltac:(lia)) as H.
  destruct (Z.leb_spec 32768 (truncate x mod 65536)); lia.
Qed.

Lemma int16_bytes_are_bytes (v : Z) : Forall is_byte (int16_bytes v).
Proof.
  unfold int16_bytes, is_byte.
  repeat (apply Forall_cons_2; [| try apply Forall_nil_2]).
  - change 255 with (Z.ones 8). rewrite Z.land_ones by lia.
    apply Z.mod_pos_bound. reflexivity.
  - change 255 with (Z.ones 8). rewrite Z.land_ones by lia.
    apply Z.mod_pos_bound. reflexivity.
Qed.

Lemma uint8_view_bytes (l : list Z) : Forall is_byte (uint8_view l).
Proof.
  unfold uint8_view. induction l as [| v l IH]; cbn [flat_map]; [apply Forall_nil_2 |].
  apply Forall_app_2; [apply int16_bytes_are_bytes | exact IH].
Qed.

Lemma uint8_view_length (l : list Z) : length (uint8_view l) = (2 * length l)%nat.
Proof.
  unfold uint8_view. induction l as [| v l IH]; [reflexivity |].
  cbn [flat_map int16_bytes app length]. rewrite IH. lia.
Qed.

Lemma int16_of_its_bytes (v : Z) :
  -32768 <= v <= 32767 ->
  int16_of_bytes (Z.land v 255) (Z.land (Z.shiftr v 8) 255) = v.
Proof.
  intros Hv. unfold int16_of_bytes. cbv zeta.
  change 255 with (Z.ones 8). rewrite !Z.land_ones by lia.
  rewrite Z.shiftr_div_pow2 by lia. change (2 ^ 8) with 256.
  destruct (Z.leb_spec 32768 (v mod 256 + 256 * ((v / 256) mod 256)));
    Z.div_mod_to_equations; lia.
Qed.

Lemma int16_view_uint8_view (l : list Z) :
  Forall (fun v => -32768 <= v <= 32767) l -> int16_view (uint8_view l) = Some l.
Proof.
  unfold uint8_view. induction 1 as [| v l Hv _ IH]; [reflexivity |].
  cbn [flat_map int16_bytes app int16_view]. rewrite IH, (int16_of_its_bytes v Hv). reflexivity.
Qed.

Lemma to_int16_array_range (block : list sample) :
  Forall (fun v => -32768 <= v <= 32767) (to_int16_array block).
Proof.
  unfold to_int16_array. apply List.Forall_forall. intros v Hv.
  apply in_map_iff in Hv as [x [<- _]]. apply ToInt16_range.
Qed.

Lemma btoa_codes_length (l : list Z) :
  Forall is_byte l -> String.length (btoa_codes l) = (4 * ((length l + 2) / 3))%nat.
Proof.
  induction l as [| a | a b | a b c l IH] using list_ind3; intros Hl.
  - reflexivity.
  - apply List.Forall_cons_iff in Hl as [Ha _].
    pose proof (digits_of_one a Ha) as H.
    apply andb_true_iff in H as [H _]. apply andb_true_iff in H as [H1 H2].
    cbn [btoa_codes]. use_digit H1. use_digit H2. reflexivity.
  - apply List.Forall_cons_iff in Hl as [Ha Hl]. apply List.Forall_cons_iff in Hl as [Hb _].
    pose proof (digits_of_one a Ha) as H.
    apply andb_true_iff in H as [H _]. apply andb_true_iff in H as [H1 _].
    pose proof (digits_of_two a b Ha Hb) as H.
    apply andb_true_iff in H as [H _]. apply andb_true_iff in H as [H _].
    apply andb_true_iff in H as [H2 H3].
    cbn [btoa_codes]. use_digit H1. use_digit H2. use_digit H3. reflexivity.
  - apply List.Forall_cons_iff in Hl as [Ha Hl]. apply List.Forall_cons_iff in Hl as [Hb Hl].
    apply List.Forall_cons_iff in Hl as [Hc Hl].
    pose proof (digits_of_one a Ha) as H.
    apply andb_true_iff in H as [H _]. apply andb_true_iff in H as [H1 _].
    pose proof (digits_of_two a b Ha Hb) as H.
    apply andb_true_iff in H as [H _]. apply andb_true_iff in H as [H _].
    apply andb_true_iff in H as [H2 _].
    pose proof (digits_of_three b c Hb Hc) as H.
    apply andb_true_iff in H as [H _]. apply andb_true_iff in H as [H _].
    apply andb_true_iff in H as [H3 H4].
    cbn [btoa_codes]. use_digit H1. use_digit H2. use_digit H3. use_digit H4.
    cbn [String.length length]. rewrite (IH Hl).
    replace (S (S (S (length l))) + 2)%nat with (length l + 2 + 1 * 3)%nat by lia.
    rewrite Nat.div_add by lia. lia.
Qed.

(** X11.  The Base64 text of [n] bytes has [4 * ceil(n / 3)] characters:
    nothing for no bytes, and one group of four characters for every
    three bytes or part thereof. *)
Theorem encoded_length (bytes : list Z) :
  Forall is_byte bytes ->
  String.length (encode bytes) = (4 * ((length bytes + 2) / 3))%nat.
Proof.
  intros Hb. rewrite (encode_bytes bytes Hb). apply btoa_codes_length, Hb.
Qed.

Lemma encoded_length_witness : String.length (encode [255; 0; 17; 128]) = 8%nat.
Proof.
  refine (encoded_length [255; 0; 17; 128] _).
  repeat (apply Forall_cons_2; [unfold is_byte; lia |]). apply Forall_nil_2.
Defined.

(** X12.  [encode] loses nothing: decoding its text as padded Base64
    gives back the bytes, so different byte sequences have different
    texts. *)
Theorem base64_round_trip (bytes : list Z) :
  Forall is_byte bytes ->
  atob (encode bytes) = Some bytes
  /\ (forall other, Forall is_byte other -> encode other = encode bytes -> other = bytes).
Proof.
  intros Hb.
  assert (Hrt : forall l, Forall is_byte l -> atob (encode l) = Some l).
  { intros l Hl. rewrite (encode_bytes l Hl). apply atob_btoa_codes, Hl. }
  split; [apply Hrt, Hb |].
  intros other Ho He. pose proof (Hrt other Ho) as H1. rewrite He, (Hrt bytes Hb) in H1.
  congruence.
Qed.

Lemma base64_round_trip_witness : atob (encode [255; 0; 17; 128]) = Some [255; 0; 17; 128].
Proof.
  refine (proj1 (base64_round_trip [255; 0; 17; 128] _)).
  repeat (apply Forall_cons_2; [unfold is_byte; lia |]). apply Forall_nil_2.
Defined.

(** X13.  The frame of a block of [n] samples is a Base64 text of
    [4 * ceil(2n / 3)] characters from which the receiver recovers
    exactly the 16-bit samples the conversion stored, in order and each
    within the signed 16-bit range; the empty block gives the empty
    text. *)
Theorem frame_round_trip (block : list sample) :
  decode_frame (encode_frame block) = Some (to_int16_array block)
  /\ String.length (encode_frame block) = (4 * ((2 * length block + 2) / 3))%nat
  /\ length (to_int16_array block) = length block
  /\ Forall (fun v => -32768 <= v <= 32767) (to_int16_array block).
Proof.
  pose proof (uint8_view_bytes (to_int16_array block)) as Hb.
  pose proof (to_int16_array_range block) as Hr.
  assert (Hlen : length (to_int16_array block) = length block).
  { unfold to_int16_array. apply length_map. }
  repeat split.
  - unfold decode_frame, encode_frame.
    rewrite (encode_bytes _ Hb), (atob_btoa_codes _ Hb). apply int16_view_uint8_view, Hr.
  - unfold encode_frame. rewrite (encode_bytes _ Hb), (btoa_codes_length _ Hb).
    rewrite uint8_view_length, Hlen. reflexivity.
  - exact Hlen.
  - exact Hr.
Qed.

End EncoderRoundTrip.

(** ** The YouTube address form *)

Section YoutubeFacts.
Import Youtube.

Lemma star_inv (k : CharClass) (s : string) (pos : nat) (caps : Captures) (c : Cont)
    (res : Captures) :
  star k s pos caps c = Some res ->
  exists taken rest,
    s = String.append taken rest /\ all_accepted k taken
    /\ c rest (pos + String.length taken)%nat caps = Some res.
Proof.
  revert pos. induction s as [| ch s IH]; intros pos H; cbn [star] in H.
  - exists EmptyString, EmptyString. rewrite Nat.add_0_r. repeat split. exact H.
  - destruct (accepts k ch) eqn:Hk.
    + destruct (star k s (S pos) caps c) as [r |] eqn:Hs.
      * injection H as ->. destruct (IH (S pos) Hs) as [taken [rest [-> [Ha Hc]]]].
        exists (String ch taken), rest. cbn. repeat split; try assumption.
        rewrite Nat.add_succ_r. exact Hc.
      * exists EmptyString, (String ch s). rewrite Nat.add_0_r. repeat split. exact H.
    + exists EmptyString, (String ch s). rewrite Nat.add_0_r. repeat split. exact H.
Qed.

(** A successful match has run its continuation on a suffix of the input. *)
Lemma matcher_inv (r : Re) :
  forall s pos caps (c : Cont) res,
    matcher r s pos caps c = Some res ->
    exists before s' pos' caps',
      s = String.append before s' /\ c s' pos' caps' = Some res.
Proof.
  induction r as [k | r1 IH1 r2 IH2 | r1 IH1 r2 IH2 | k | k | n r IH |];
    intros s pos caps c res H; cbn [matcher] in H.
  - destruct s as [| ch s]; [discriminate |]. destruct (accepts k ch); [| discriminate].
    exists (String ch EmptyString), s, (S pos), caps. split; [reflexivity | exact H].
  - destruct (IH1 _ _ _ _ _ H) as [b1 [s1 [p1 [c1 [-> H1]]]]].
    destruct (IH2 _ _ _ _ _ H1) as [b2 [s2 [p2 [c2 [-> H2]]]]].
    exists (String.append b1 b2), s2, p2, c2. split; [| exact H2].
    symmetry. apply append_assoc.
  - destruct (matcher r1 s pos caps c) as [x |] eqn:E.
    + injection H as ->. exact (IH1 _ _ _ _ _ E).
    + exact (IH2 _ _ _ _ _ H).
  - destruct (star_inv _ _ _ _ _ _ H) as [taken [rest [-> [_ Hc]]]].
    exists taken, rest, (pos + String.length taken)%nat, caps. split; [reflexivity | exact Hc].
  - destruct s as [| ch s].
    + exists EmptyString, EmptyString, pos, caps. split; [reflexivity | exact H].
    + destruct (accepts k ch).
      * destruct (c s (S pos) caps) as [x |] eqn:E.
        -- injection H as ->. exists (String ch EmptyString), s, (S pos), caps.
           split; [reflexivity | exact E].
        -- exists EmptyString, (String ch s), pos, caps. split; [reflexivity | exact H].
      * exists EmptyString, (String ch s), pos, caps. split; [reflexivity | exact H].
  - destruct (IH _ _ _ _ _ H) as [b [s1 [p1 [c1 [-> H1]]]]].
    exists b, s1, p1, (capture n (consumed (String.append b s1) s1) c1).
    split; [reflexivity | exact H1].
  - destruct (Nat.eqb pos 0); [| discriminate].
    exists EmptyString, s, pos, caps. split; [reflexivity | exact H].
Qed.

Lemma star_matched (k : CharClass) (s : string) (pos : nat) (caps : Captures) :
  star k s pos caps matched = Some caps.
Proof.
  revert pos. induction s as [| ch s IH]; intros pos; cbn [star]; [reflexivity |].
  destruct (accepts k ch); [rewrite IH |]; reflexivity.
Qed.

Lemma length_append (a b : string) :
  String.length (String.append a b) = (String.length a + String.length b)%nat.
Proof. induction a as [| ch a IH]; cbn; [reflexivity | rewrite IH; reflexivity]. Qed.

Lemma substring_prefix (a b : string) :
  substring 0 (String.length a) (String.append a b) = a.
Proof. induction a as [| ch a IH]; cbn; [destruct b; reflexivity | rewrite IH; reflexivity]. Qed.

Lemma consumed_append (a b : string) : consumed (String.append a b) b = a.
Proof.
  unfold consumed. rewrite length_append.
  replace (String.length a + String.length b - String.length b)%nat with (String.length a)
    by lia.
  apply substring_prefix.
Qed.

(** Past the first index the pattern cannot match, for its [^]. *)
Lemma exec_regExp (url : string) : exec regExp url = matcher regExp url 0 no_captures matched.
Proof.
  assert (Hlater : forall s pos, exec_from regExp s (S pos) = None).
  { induction s as [| ch s IH]; intros pos; cbn [exec_from]; [reflexivity |].
    change (matcher regExp (String ch s) (S pos) no_captures (fun _ _ caps => Some caps))
      with (@None Captures). apply IH. }
  unfold exec. destruct url as [| ch s]; cbn [exec_from].
  - fold matched. destruct (matcher regExp EmptyString 0 no_captures matched); reflexivity.
  - fold matched. destruct (matcher regExp (String ch s) 0 no_captures matched); [reflexivity |].
    apply Hlater.
Qed.

Lemma regExp_unfold (url : string) :
  matcher regExp url 0 no_captures matched = star dot url 0 no_captures from_marker.
Proof. reflexivity. Qed.

Lemma matcher_cat (r1 r2 : Re) (s : string) (pos : nat) (caps : Captures) (c : Cont) :
  matcher (Cat r1 r2) s pos caps c
  = matcher r1 s pos caps (fun s1 pos1 caps1 => matcher r2 s1 pos1 caps1 c).
Proof. reflexivity. Qed.

(** What the seventh group holds at the end of a match of the tail. *)
Lemma group7_inv (s : string) (pos : nat) (caps : Captures) (res : Captures) :
  matcher (Cat (Group 7 (Star id_class)) (Star dot)) s pos caps matched
  = Some res ->
  exists id rest,
    s = String.append id rest
    /\ all_accepted id_class id
    /\ res 7%nat = Some id.
Proof.
  intros H. cbn [matcher] in H.
  destruct (star_inv _ _ _ _ _ _ H) as [taken [rest [-> [Ha Hc]]]].
  cbv beta in Hc. fold matched in Hc. rewrite star_matched in Hc. injection Hc as <-.
  exists taken, rest. repeat split; try assumption.
  unfold capture. cbn. rewrite consumed_append. reflexivity.
Qed.

Lemma after_marker_inv (s : string) (pos : nat) (caps : Captures) (res : Captures) :
  matcher after_marker s pos caps matched = Some res ->
  exists before id rest,
    s = String.append before (String.append id rest)
    /\ all_accepted id_class id
    /\ res 7%nat = Some id.
Proof.
  intros H. unfold after_marker in H.
  rewrite matcher_cat in H. apply matcher_inv in H as [b1 [s1 [p1 [c1 [-> H]]]]].
  rewrite matcher_cat in H. apply matcher_inv in H as [b2 [s2 [p2 [c2 [-> H]]]]].
  rewrite matcher_cat in H. apply matcher_inv in H as [b3 [s3 [p3 [c3 [-> H]]]]].
  apply group7_inv in H as [id [rest [-> [Ha Hr]]]].
  exists (String.append b1 (String.append b2 b3)), id, rest.
  repeat split; try assumption. rewrite !append_assoc. reflexivity.
Qed.

(** **** The greedy star and the optional characters *)

Lemma prefix_and_rest (k : CharClass) (s : string) :
  s = String.append (accepted_prefix k s) (rest_behind k s).
Proof.
  induction s as [| ch s IH]; cbn; [reflexivity |].
  destruct (accepts k ch); cbn; [rewrite <- IH |]; reflexivity.
Qed.

(** The star takes the whole accepted beginning when its continuation succeeds there. *)
Lemma star_greedy (k : CharClass) (s : string) (pos : nat) (caps : Captures) (c : Cont)
    (x : Captures) :
  c (rest_behind k s) (pos + String.length (accepted_prefix k s))%nat caps = Some x ->
  star k s pos caps c = Some x.
Proof.
  revert pos. induction s as [| ch s IH]; intros pos H; cbn in *.
  - rewrite Nat.add_0_r in H. exact H.
  - destruct (accepts k ch); cbn in H.
    + rewrite (IH (S pos)); [reflexivity |]. rewrite Nat.add_succ_r in H. exact H.
    + rewrite Nat.add_0_r in H. exact H.
Qed.

(** The star gives the continuation's answer where the continuation fails
    at every later index. *)
Lemma star_fallback (k : CharClass) (s : string) (pos : nat) (caps : Captures) (c : Cont) :
  fails_inside c caps s -> star k s pos caps c = c s pos caps.
Proof.
  revert pos. induction s as [| ch s IH]; intros pos H; cbn [star]; [reflexivity |].
  destruct H as [Hrest Hin].
  destruct (accepts k ch); [| reflexivity].
  rewrite (IH (S pos) Hin), Hrest. reflexivity.
Qed.

(** The star passes over a beginning it accepts when the match succeeds
    behind it. *)
Lemma star_prefix (k : CharClass) (pre s : string) (pos : nat) (caps : Captures) (c : Cont)
    (x : Captures) :
  all_accepted k pre ->
  star k s (pos + String.length pre)%nat caps c = Some x ->
  star k (String.append pre s) pos caps c = Some x.
Proof.
  revert pos. induction pre as [| ch pre IH]; intros pos Ha H; cbn in *.
  - rewrite Nat.add_0_r in H. exact H.
  - destruct Ha as [-> Ha]. rewrite (IH (S pos) Ha); [reflexivity |].
    rewrite Nat.add_succ_r in H. exact H.
Qed.

Lemma opt_lit (ch : ascii) (s : string) (pos : nat) (caps : Captures) (c : Cont)
    (x : Captures) :
  (forall pos', c (strip ch s) pos' caps = Some x) ->
  matcher (Opt (lit ch)) s pos caps c = Some x.
Proof.
  intros H. destruct s as [| d s]; cbn in *; [apply H |].
  destruct (Ascii.eqb d ch); rewrite H; reflexivity.
Qed.

(** The tail of the pattern always matches, and its group holds
    [id_part]. *)
Lemma tail_result (s : string) (pos : nat) (caps : Captures) :
  matcher after_marker s pos caps matched = Some (capture 7 (id_part s) caps).
Proof.
  unfold after_marker.
  rewrite matcher_cat. apply opt_lit. intros p1.
  rewrite matcher_cat. apply opt_lit. intros p2.
  rewrite matcher_cat. apply opt_lit. intros p3.
  set (t := strip "=" (strip "v" (strip "?" s))).
  change (id_part s) with (accepted_prefix id_class t).
  rewrite matcher_cat. cbn [matcher]. apply star_greedy.
  cbv beta. rewrite star_matched. f_equal. f_equal.
  rewrite (prefix_and_rest id_class t) at 1. apply consumed_append.
Qed.

(** **** Where the markers cannot match *)

Lemma chars_fail (d : ascii) (ks : list CharClass) :
  In (lit d) ks ->
  forall s pos caps c, lacks d s -> matcher (chars ks) s pos caps c = None.
Proof.
  induction ks as [| k ks IH]; intros Hin s pos caps c Hl; [destruct Hin |].
  destruct ks as [| k' ks].
  - destruct Hin as [-> | []]. cbn. destruct s as [| ch s]; [reflexivity |].
    destruct Hl as [-> _]. reflexivity.
  - change (chars (k :: k' :: ks)) with (Cat (Chr k) (chars (k' :: ks))).
    rewrite matcher_cat. cbn [matcher]. destruct s as [| ch s]; [reflexivity |].
    destruct Hl as [Hch Hl]. destruct Hin as [-> | Hin].
    + cbn. rewrite Hch. reflexivity.
    + destruct (accepts k ch); [| reflexivity]. apply IH; assumption.
Qed.

Lemma text_fail (m : string) :
  m <> EmptyString ->
  forall s pos caps c, begins m s = false -> matcher (text m) s pos caps c = None.
Proof.
  unfold text. induction m as [| a m IH]; intros Hne s pos caps c Hb; [congruence |].
  destruct m as [| a' m].
  - cbn. destruct s as [| ch s]; [reflexivity |]. cbn in Hb.
    rewrite andb_true_r in Hb. rewrite Hb. reflexivity.
  - change (chars (map lit (list_ascii_of_string (String a (String a' m)))))
      with (Cat (Chr (lit a)) (chars (map lit (list_ascii_of_string (String a' m))))).
    rewrite matcher_cat. cbn [matcher]. destruct s as [| ch s]; [reflexivity |].
    cbn [accepts]. cbn [begins] in Hb. destruct (Ascii.eqb ch a); [| reflexivity].
    apply IH; [discriminate | exact Hb].
Qed.

Lemma matcher_group (n : nat) (r : Re) (s : string) (pos : nat) (caps : Captures) (c : Cont) :
  matcher (Group n r) s pos caps c
  = matcher r s pos caps (fun s1 pos1 caps1 => c s1 pos1 (capture n (consumed s s1) caps1)).
Proof. reflexivity. Qed.

Lemma matcher_alt_fail (r1 r2 : Re) (s : string) (pos : nat) (caps : Captures) (c : Cont) :
  matcher r1 s pos caps c = None ->
  matcher (Alt r1 r2) s pos caps c = matcher r2 s pos caps c.
Proof. intros H. cbn [matcher]. rewrite H. reflexivity. Qed.

(** No alternative matches a text without [/] that does not begin with
    [watch?]. *)
Lemma markers_fail (s : string) (pos : nat) (caps : Captures) (c : Cont) :
  lacks "/" s -> begins "watch?" s = false -> matcher markers s pos caps c = None.
Proof.
  intros Hl Hb. unfold markers.
  rewrite matcher_alt_fail by (rewrite matcher_group; apply (chars_fail "/"); cbn; tauto).
  rewrite matcher_alt_fail by (rewrite matcher_group; apply (chars_fail "/"); cbn; tauto).
  rewrite matcher_alt_fail by (rewrite matcher_group; apply (chars_fail "/"); cbn; tauto).
  rewrite matcher_alt_fail by (rewrite matcher_group; apply (chars_fail "/"); cbn; tauto).
  rewrite matcher_group. apply text_fail; [discriminate | exact Hb].
Qed.

Lemma from_marker_fail (s : string) (pos : nat) (caps : Captures) :
  lacks "/" s -> begins "watch?" s = false -> from_marker s pos caps = None.
Proof.
  intros Hl Hb. unfold from_marker. rewrite matcher_cat, matcher_group.
  apply markers_fail; assumption.
Qed.

Lemma lacks_append (c : ascii) (a b : string) :
  lacks c (String.append a b) <-> lacks c a /\ lacks c b.
Proof. induction a as [| ch a IH]; cbn; [tauto | rewrite IH; tauto]. Qed.

Lemma occurs_append (m a b : string) :
  occurs m (String.append a b) = false -> occurs m b = false.
Proof.
  induction a as [| ch a IH]; cbn [String.append]; intros H; [exact H |].
  cbn [occurs] in H. apply orb_false_elim in H as [_ H]. exact (IH H).
Qed.

Lemma occurs_begins (m s : string) : occurs m s = false -> begins m s = false.
Proof. destruct s; cbn [occurs]; intros H; apply orb_false_elim in H as [H _]; exact H. Qed.

Lemma fails_inside_tail (s : string) (caps : Captures) :
  lacks "/" s -> occurs "watch?" s = false -> fails_inside from_marker caps s.
Proof.
  induction s as [| ch s IH]; intros Hl Ho; cbn [fails_inside]; [exact I |].
  destruct Hl as [_ Hl]. cbn [occurs] in Ho. apply orb_false_elim in Ho as [_ Ho].
  split; [| exact (IH Hl Ho)].
  intros pos. apply from_marker_fail; [exact Hl | exact (occurs_begins _ _ Ho)].
Qed.

(** **** The match at the last marker *)

Lemma marker_matches (m tail : string) (pos : nat) (caps : Captures) :
  In m plain_markers ->
  exists caps', from_marker (String.append m tail) pos caps
                = Some (capture 7 (id_part tail) caps').
Proof.
  intros Hm. unfold from_marker. rewrite matcher_cat.
  set (c := fun s1 pos1 caps1 => matcher after_marker s1 pos1 caps1 matched).
  assert (Hc : forall s p k, c s p k = Some (capture 7 (id_part s) k))
    by (intros; apply tail_result).
  clearbody c.
  destruct Hm as [<- | [<- | [<- | [<- | []]]]];
    cbn -[consumed]; rewrite Hc; eexists; reflexivity.
Qed.

Lemma slash_fail (tail : string) (pos : nat) (caps : Captures) :
  lacks "/" tail -> from_marker (String "/" tail) pos caps = None.
Proof.
  intros Hl. unfold from_marker, markers. rewrite matcher_cat, matcher_group.
  rewrite matcher_alt_fail by reflexivity.
  rewrite matcher_alt_fail by reflexivity.
  rewrite matcher_alt_fail.
  - rewrite matcher_alt_fail by reflexivity. reflexivity.
  - rewrite matcher_group.
    change (chars [lit "/"; lit "u"; lit "/"; word; lit "/"]%char)
      with (Cat (Chr (lit "/")) (chars [lit "u"; lit "/"; word; lit "/"]%char)).
    rewrite matcher_cat. cbn [matcher accepts]. cbn [Ascii.eqb Bool.eqb].
    apply (chars_fail "/"); [cbn; tauto | exact Hl].
Qed.

Lemma marker_inside (m tail : string) (caps : Captures) :
  In m plain_markers ->
  lacks "/" tail -> occurs "watch?" tail = false ->
  fails_inside from_marker caps (String.append m tail).
Proof.
  intros Hm Hl Ho.
  assert (Htail : forall pos, from_marker tail pos caps = None)
    by (intros pos; apply from_marker_fail; [exact Hl | exact (occurs_begins _ _ Ho)]).
  pose proof (fails_inside_tail tail caps Hl Ho) as Hin.
  pose proof (fun pos => slash_fail tail pos caps Hl) as Hslash.
  destruct Hm as [<- | [<- | [<- | [<- | []]]]];
    cbn [String.append fails_inside];
    repeat split; try assumption; intros pos; reflexivity.
Qed.

(** An address whose last marker is a plain one: the id is what the tail
    of the pattern takes behind that marker. *)
Lemma marker_address (pre m tail : string) :
  all_accepted dot pre ->
  In m plain_markers ->
  lacks "/" tail -> occurs "watch?" tail = false ->
  extractYoutubeId (String.append pre (String.append m tail))
  = if Nat.eqb (String.length (id_part tail)) 11 then Some (id_part tail) else None.
Proof.
  intros Ha Hm Hl Ho. unfold extractYoutubeId. rewrite exec_regExp, regExp_unfold.
  destruct (marker_matches m tail (0 + String.length pre) no_captures Hm) as [caps' Hc].
  rewrite (star_prefix dot pre _ 0 no_captures from_marker
             (capture 7 (id_part tail) caps') Ha); [reflexivity |].
  rewrite star_fallback by (apply marker_inside; assumption). exact Hc.
Qed.

Lemma accepted_prefix_id (id rest : string) :
  all_accepted id_class id -> ends_id rest -> accepted_prefix id_class (String.append id rest) = id.
Proof.
  intros Ha He. induction id as [| d id IH]; cbn [String.append accepted_prefix].
  - destruct rest as [| e rest]; [reflexivity |]. cbn [accepted_prefix]. unfold ends_id in He.
    rewrite He. reflexivity.
  - destruct Ha as [Hd Ha]. rewrite Hd, (IH Ha). reflexivity.
Qed.

Lemma id_class_not_question (d : ascii) :
  accepts id_class d = true -> Ascii.eqb d "?" = false.
Proof.
  cbn. destruct (Ascii.eqb d "#"), (Ascii.eqb d "&"), (Ascii.eqb d "?");
    cbn; congruence.
Qed.

(** Behind a marker that ends in [/], an id of eleven characters is taken
    whole unless it begins with [v] or [=]. *)
Lemma id_part_of_id (id rest : string) :
  String.length id = 11%nat ->
  all_accepted id_class id -> ends_id rest ->
  (if Nat.eqb (String.length (id_part (String.append id rest))) 11
   then Some (id_part (String.append id rest)) else None)
  = if begins_with_v_or_equals id then None else Some id.
Proof.
  intros Hlen Ha He. destruct id as [| d id]; [discriminate |].
  destruct Ha as [Hd Ha]. pose proof (id_class_not_question d Hd) as Hq.
  unfold id_part. cbn [String.append strip begins_with_v_or_equals]. rewrite Hq.
  cbn [strip]. destruct (Ascii.eqb d "v") eqn:Hv; cbn [orb].
  - destruct id as [| e id]; [discriminate |]. destruct Ha as [He' Ha].
    cbn [String.append strip]. destruct (Ascii.eqb e "=").
    + rewrite (accepted_prefix_id id rest Ha He).
      replace (String.length id) with 9%nat by (cbn in Hlen; lia). reflexivity.
    + change (String e (String.append id rest)) with (String.append (String e id) rest).
      rewrite (accepted_prefix_id (String e id) rest (conj He' Ha) He).
      replace (String.length (String e id)) with 10%nat by (cbn in Hlen |- *; lia).
      reflexivity.
  - cbn [strip]. destruct (Ascii.eqb d "=") eqn:Heq.
    + rewrite (accepted_prefix_id id rest Ha He).
      replace (String.length id) with 10%nat by (cbn in Hlen; lia). reflexivity.
    + change (String d (String.append id rest)) with (String.append (String d id) rest).
      rewrite (accepted_prefix_id (String d id) rest (conj Hd Ha) He), Hlen. reflexivity.
Qed.

(** The seventh group of a match is a part of the address made of
    characters of the id class. *)
Lemma seventh_group (url : string) (caps : Captures) :
  exec regExp url = Some caps ->
  exists before id rest,
    url = String.append before (String.append id rest)
    /\ all_accepted id_class id
    /\ caps 7%nat = Some id.
Proof.
  rewrite exec_regExp, regExp_unfold. intros Hs.
  destruct (star_inv _ _ _ _ _ _ Hs) as [taken [s1 [-> [_ Hc]]]].
  unfold from_marker in Hc. rewrite matcher_cat in Hc.
  apply matcher_inv in Hc as [b1 [s2 [p2 [c2 [-> Hc]]]]].
  apply after_marker_inv in Hc as [b2 [id [rest [-> [Ha H7]]]]].
  exists (String.append taken (String.append b1 b2)), id, rest.
  split; [| split; assumption]. rewrite !append_assoc. reflexivity.
Qed.

(** X14.  What [extractYoutubeId] returns is always a part of the address
    that has eleven characters, none of them [#], [&] or [?]. *)
Theorem extracted_id_shape (url id : string) :
  extractYoutubeId url = Some id ->
  String.length id = 11%nat
  /\ all_accepted id_class id
  /\ exists before rest, url = String.append before (String.append id rest).
Proof.
  unfold extractYoutubeId.
  destruct (exec regExp url) as [caps |] eqn:Hm; [| discriminate].
  destruct (seventh_group url caps Hm) as [before [id' [rest [Hurl [Ha H7]]]]].
  rewrite H7. destruct (Nat.eqb (String.length id') 11) eqn:Hlen; [| discriminate].
  intros [= <-]. split; [apply Nat.eqb_eq; exact Hlen |]. split; [exact Ha |].
  exists before, rest. exact Hurl.
Qed.

Lemma extracted_id_shape_witness :
  extractYoutubeId "https://www.youtube.com/watch?v=dQw4w9WgXcQ&t=42s" = Some "dQw4w9WgXcQ"%string
  /\ String.length "dQw4w9WgXcQ" = 11%nat.
Proof.
  assert (H : extractYoutubeId "https://www.youtube.com/watch?v=dQw4w9WgXcQ&t=42s"
              = Some "dQw4w9WgXcQ"%string) by (vm_compute; reflexivity).
  split; [exact H |]. exact (proj1 (extracted_id_shape _ _ H)).
Defined.

(** X15.  A watch address gives its id: behind any beginning on one line,
    [watch?v=] followed by eleven characters other than [#], [&], [?] and
    [/], and then nothing or a part that begins with [#], [&] or [?] and
    holds no [/] and no further [watch?]. *)
Theorem watch_address_gives_id (pre id rest : string) :
  all_accepted dot pre ->
  String.length id = 11%nat ->
  all_accepted id_class id -> lacks "/" id ->
  ends_id rest -> lacks "/" rest ->
  occurs "watch?" (String.append id rest) = false ->
  extractYoutubeId (String.append pre (String.append "watch?v=" (String.append id rest)))
  = Some id.
Proof.
  intros Hpre Hlen Ha Hl He Hlr Ho.
  change (String.append "watch?v=" (String.append id rest))
    with (String.append "watch?" (String.append "v=" (String.append id rest))).
  rewrite marker_address; try assumption.
  - change (id_part (String.append "v=" (String.append id rest)))
      with (accepted_prefix id_class (String.append id rest)).
    rewrite (accepted_prefix_id id rest Ha He), Hlen. reflexivity.
  - cbn; tauto.
  - cbn [String.append lacks]. repeat split. apply lacks_append. split; assumption.
Qed.

Lemma watch_address_gives_id_witness :
  extractYoutubeId "https://www.youtube.com/watch?v=dQw4w9WgXcQ&t=42s" = Some "dQw4w9WgXcQ"%string.
Proof.
  apply (watch_address_gives_id "https://www.youtube.com/" "dQw4w9WgXcQ" "&t=42s");
    cbn; repeat split; reflexivity.
Defined.

(** X16.  A short, embedded or [v/] address gives its id unless the id
    begins with [v] or [=]: the optional [v] and [=] of the pattern then
    take the first characters of the id, fewer than eleven are left, and
    the address is refused. *)
Theorem path_address_gives_id_unless_v (pre m id rest : string) :
  all_accepted dot pre ->
  In m ["youtu.be/"; "v/"; "embed/"]%string ->
  String.length id = 11%nat ->
  all_accepted id_class id -> lacks "/" id ->
  ends_id rest -> lacks "/" rest ->
  occurs "watch?" (String.append id rest) = false ->
  extractYoutubeId (String.append pre (String.append m (String.append id rest)))
  = if begins_with_v_or_equals id then None else Some id.
Proof.
  intros Hpre Hm Hlen Ha Hl He Hlr Ho.
  rewrite marker_address; try assumption.
  - apply id_part_of_id; assumption.
  - unfold plain_markers. cbn in Hm |- *. tauto.
  - apply lacks_append. split; assumption.
Qed.

Lemma path_address_gives_id_unless_v_witness :
  extractYoutubeId "https://youtu.be/dQw4w9WgXcQ?t=42" = Some "dQw4w9WgXcQ"%string
  /\ extractYoutubeId "https://youtu.be/vQw4w9WgXcQ?t=42" = None.
Proof.
  split.
  - apply (path_address_gives_id_unless_v "https://" "youtu.be/" "dQw4w9WgXcQ" "?t=42");
      cbn; try tauto; repeat split; reflexivity.
  - apply (path_address_gives_id_unless_v "https://" "youtu.be/" "vQw4w9WgXcQ" "?t=42");
      cbn; try tauto; repeat split; reflexivity.
Defined.

(** X17.  An address with no [/] and no [watch?] is refused. *)
Theorem address_needs_marker (url : string) :
  lacks "/" url -> occurs "watch?" url = false -> extractYoutubeId url = None.
Proof.
  intros Hl Ho. unfold extractYoutubeId. rewrite exec_regExp, regExp_unfold.
  destruct (star dot url 0 no_captures from_marker) as [caps |] eqn:Hs; [| reflexivity].
  destruct (star_inv _ _ _ _ _ _ Hs) as [taken [s1 [-> [_ Hc]]]].
  apply lacks_append in Hl as [_ Hl]. apply occurs_append in Ho.
  rewrite from_marker_fail in Hc; [discriminate | exact Hl | exact (occurs_begins _ _ Ho)].
Qed.

Lemma address_needs_marker_witness : extractYoutubeId "dQw4w9WgXcQ" = None.
Proof. apply address_needs_marker; cbn; repeat split; reflexivity. Defined.

End YoutubeFacts.

Section YoutubeLoad.
Import Youtube Form.

(** X18.  Loading an address either stores an id of eleven characters
    taken from the address, none of them [#], [&] or [?], and shows
    nothing, or shows the alert and leaves the state, with the video
    loaded before, as it was.  With an id stored the conversion button of
    the YouTube mode is enabled. *)
Theorem youtube_load_outcome (st : St) (youtubeUrl : string) :
  let r := handleYoutubeLoad youtubeUrl st in
  completion_of r = Normal tt
  /\ ((exists id,
         state_of r = on_react (with_youtubeId (Some id)) st
         /\ String.length id = 11%nat
         /\ all_accepted id_class id
         /\ (exists before rest,
               youtubeUrl = String.append before (String.append id rest))
         /\ calls (log_of r) = []
         /\ (sourceMode (react st) = youtube ->
             button_disabled (render (state_of r)) = false))
      \/ (state_of r = st /\ log_of r = [alert msg_bad_youtube_url])).
Proof.
  unfold handleYoutubeLoad, extractYoutubeId.
  destruct (exec regExp youtubeUrl) as [caps |] eqn:Hm;
    [| cbn; split; [reflexivity | right; split; reflexivity]].
  destruct (seventh_group youtubeUrl caps Hm) as [before [id [rest [Hurl [Ha H7]]]]].
  rewrite H7. destruct (Nat.eqb (String.length id) 11) eqn:Hlen; cbn.
  - split; [reflexivity |]. left. exists id.
    repeat split; try assumption.
    + apply Nat.eqb_eq. exact Hlen.
    + exists before, rest. exact Hurl.
    + intros Hmode. unfold button_disabled. cbn. rewrite Hmode. reflexivity.
  - split; [reflexivity |]. right. split; reflexivity.
Qed.

End YoutubeLoad.
